(** * FA2.py: the single-edition FA2 ledger of tezos-artblocks

    A shallow embedding of the SmartPy contract [FA2] (src/FA2.py) and the
    properties of its entry points and views.

    - SmartPy [nat] is [N] and [int] is [Z], both unbounded.  A [mutez] is a
      natural number below 2^63: the amounts the platform hands to a call are
      in that range, and a product of mutez that leaves it aborts the call
      ([mutez_mul]).
    - [big_map]s are [gmap]s, the lazy operator set is a [gset].
    - An entry point is a function from the call environment ([sp.sender],
      [sp.amount], [sp.now], ...) and the storage to a [result]: either the
      new storage (and the operations emitted), or the failure raised by
      [sp.verify] / [sp.failwith].  A failed call commits nothing: the
      storage after the call is the storage before it ([commit]). *)

From Stdlib Require Import ZArith NArith Zpow_facts Lia.
From stdpp Require Import gmap strings list pretty.

Local Open Scope string_scope.
Local Open Scope N_scope.

(** ** Base types *)

Abbreviation address := string (only parsing).
Abbreviation mutez := N (only parsing).
Abbreviation timestamp := Z (only parsing).
Abbreviation bytes := (list Byte.byte) (only parsing).
Abbreviation token_id_type := N (only parsing).

(** ** Failures and the result monad *)

Inductive failure : Type :=
| FAILWITH (message : string)   (* sp.verify(c, message = m), sp.failwith(m) *)
| WrongCondition                (* sp.verify(c) without a message *)
| MissingKey                    (* m[k] on a key that is not in the map *)
| MutezOverflow                 (* a mutez product of 2^63 or more *)
| OpenSomeOnNone.               (* x.open_some() on None, without a message *)

Inductive result (A : Type) : Type :=
| Ok (a : A)
| Failed (e : failure).
Arguments Ok {A} a.
Arguments Failed {A} e.

Definition bind {A B} (r : result A) (k : A -> result B) : result B :=
  match r with
  | Ok a => k a
  | Failed e => Failed e
  end.

Notation "x <- r ;; k" := (bind r (fun x => k))
  (at level 100, r at next level, right associativity).
Notation "r ;;; k" := (bind r (fun _ => k))
  (at level 100, right associativity).

Definition verify (c : bool) (message : string) : result unit :=
  if c then Ok tt else Failed (FAILWITH message).

Definition verify_no_message (c : bool) : result unit :=
  if c then Ok tt else Failed WrongCondition.

(** [m[k]] *)
Definition get_item {K V} `{Countable K} (m : gmap K V) (k : K) : result V :=
  match m !! k with
  | Some v => Ok v
  | None => Failed MissingKey
  end.

(** [m.contains(k)] *)
Definition contains {K V} `{Countable K} (m : gmap K V) (k : K) : bool :=
  bool_decide (is_Some (m !! k)).

Definition is_ok {A} (r : result A) : bool :=
  match r with Ok _ => true | Failed _ => false end.

(** ** [FA2_config] *)

Record FA2_config := {
  support_operator : bool;
  allow_self_transfer : bool;
  config_price : N;
  config_max_editions : N;
  config_base_uri : string
}.

Definition default_config : FA2_config :=
  {| support_operator := true;
     allow_self_transfer := false;
     config_price := 1000000;
     config_max_editions := 2;
     config_base_uri := "https://open-artblocks.herokuapp.com/api/" |}.

(** ** [Error_message] *)

Module Error_message.
Definition prefix : string := "FA2_".
Definition make (s : string) : string := prefix +:+ s.
Definition token_undefined := make "TOKEN_UNDEFINED".
Definition insufficient_balance := make "INSUFFICIENT_BALANCE".
Definition not_operator := make "NOT_OPERATOR".
Definition not_owner := make "NOT_OWNER".
Definition bad_value := make "BAD_VALUE".
Definition max_editions_reached := make "MAX_EDITIONS_REACHED".
Definition operators_unsupported := make "OPERATORS_UNSUPPORTED".
Definition not_admin := make "NOT_ADMIN".
Definition not_admin_or_operator := make "NOT_ADMIN_OR_OPERATOR".
Definition paused := make "PAUSED".
Definition locked := make "LOCKED".
Definition bad_amount := make "BAD_QUANTITY".
Definition sale_started := make "SALE_STARTED".
End Error_message.

(** ** Parameter types of the entry points *)

Module Batch_transfer.
Record tx := { to_ : address; token_id : token_id_type; amount : N }.
Record transfer := { from_ : address; txs : list tx }.
End Batch_transfer.

Module Operator_param.
Record t := make { owner : address; operator : address; token_id : token_id_type }.
End Operator_param.

Inductive operator_update :=
| add_operator (upd : Operator_param.t)
| remove_operator (upd : Operator_param.t).

Module Balance_of.
Record request := { owner : address; token_id : token_id_type }.
Record response := { req : request; balance : N }.
End Balance_of.

(** ** [Operator_set]: a lazy set of [(owner, (operator, token_id))] *)

Module Operator_set.
Definition key : Type := address * (address * token_id_type).
Definition make_key (owner operator : address) (token_id : token_id_type) : key :=
  (owner, (operator, token_id)).
Definition make : gset key := ∅.
Definition add (set : gset key) (owner operator : address)
    (token_id : token_id_type) : gset key :=
  {[ make_key owner operator token_id ]} ∪ set.
Definition remove (set : gset key) (owner operator : address)
    (token_id : token_id_type) : gset key :=
  set ∖ {[ make_key owner operator token_id ]}.
Definition is_member (set : gset key) (owner operator : address)
    (token_id : token_id_type) : bool :=
  bool_decide (make_key owner operator token_id ∈ set).
End Operator_set.

(** ** [Token_id_set]: consecutive ids, represented by their number *)

Module Token_id_set.
Definition empty : N := 0.
Definition add (totalTokens tokenID : N) : result N :=
  verify (totalTokens =? tokenID) "Token-IDs should be consecutive" ;;;
  Ok (tokenID + 1).
Definition contains (totalTokens tokenID : N) : bool := tokenID <? totalTokens.
Definition cardinal (totalTokens : N) : N := totalTokens.
End Token_id_set.

(** ** Storage *)

Record storage := {
  ledger : gmap N address;
  hashes : gmap N bytes;
  operators : gset Operator_set.key;
  all_tokens : N;
  metadata : gmap string bytes;
  price : mutez;
  max_editions : N;
  script : string;
  base_uri : bytes;
  paused : bool;
  locked : bool;
  administrator : address
}.

Definition set_ledger (v : gmap N address) (st : storage) : storage :=
  {| ledger := v; hashes := hashes st; operators := operators st;
     all_tokens := all_tokens st; metadata := metadata st; price := price st;
     max_editions := max_editions st; script := script st;
     base_uri := base_uri st; paused := paused st; locked := locked st;
     administrator := administrator st |}.

Definition set_hashes (v : gmap N bytes) (st : storage) : storage :=
  {| ledger := ledger st; hashes := v; operators := operators st;
     all_tokens := all_tokens st; metadata := metadata st; price := price st;
     max_editions := max_editions st; script := script st;
     base_uri := base_uri st; paused := paused st; locked := locked st;
     administrator := administrator st |}.

Definition set_operators (v : gset Operator_set.key) (st : storage) : storage :=
  {| ledger := ledger st; hashes := hashes st; operators := v;
     all_tokens := all_tokens st; metadata := metadata st; price := price st;
     max_editions := max_editions st; script := script st;
     base_uri := base_uri st; paused := paused st; locked := locked st;
     administrator := administrator st |}.

Definition set_all_tokens (v : N) (st : storage) : storage :=
  {| ledger := ledger st; hashes := hashes st; operators := operators st;
     all_tokens := v; metadata := metadata st; price := price st;
     max_editions := max_editions st; script := script st;
     base_uri := base_uri st; paused := paused st; locked := locked st;
     administrator := administrator st |}.

Definition set_price (v : mutez) (st : storage) : storage :=
  {| ledger := ledger st; hashes := hashes st; operators := operators st;
     all_tokens := all_tokens st; metadata := metadata st; price := v;
     max_editions := max_editions st; script := script st;
     base_uri := base_uri st; paused := paused st; locked := locked st;
     administrator := administrator st |}.

Definition set_max_editions (v : N) (st : storage) : storage :=
  {| ledger := ledger st; hashes := hashes st; operators := operators st;
     all_tokens := all_tokens st; metadata := metadata st; price := price st;
     max_editions := v; script := script st;
     base_uri := base_uri st; paused := paused st; locked := locked st;
     administrator := administrator st |}.

Definition set_script_field (v : string) (st : storage) : storage :=
  {| ledger := ledger st; hashes := hashes st; operators := operators st;
     all_tokens := all_tokens st; metadata := metadata st; price := price st;
     max_editions := max_editions st; script := v;
     base_uri := base_uri st; paused := paused st; locked := locked st;
     administrator := administrator st |}.

Definition set_base_uri_field (v : bytes) (st : storage) : storage :=
  {| ledger := ledger st; hashes := hashes st; operators := operators st;
     all_tokens := all_tokens st; metadata := metadata st; price := price st;
     max_editions := max_editions st; script := script st;
     base_uri := v; paused := paused st; locked := locked st;
     administrator := administrator st |}.

Definition set_paused (v : bool) (st : storage) : storage :=
  {| ledger := ledger st; hashes := hashes st; operators := operators st;
     all_tokens := all_tokens st; metadata := metadata st; price := price st;
     max_editions := max_editions st; script := script st;
     base_uri := base_uri st; paused := v; locked := locked st;
     administrator := administrator st |}.

Definition set_locked (v : bool) (st : storage) : storage :=
  {| ledger := ledger st; hashes := hashes st; operators := operators st;
     all_tokens := all_tokens st; metadata := metadata st; price := price st;
     max_editions := max_editions st; script := script st;
     base_uri := base_uri st; paused := paused st; locked := v;
     administrator := administrator st |}.

Definition set_administrator_field (v : address) (st : storage) : storage :=
  {| ledger := ledger st; hashes := hashes st; operators := operators st;
     all_tokens := all_tokens st; metadata := metadata st; price := price st;
     max_editions := max_editions st; script := script st;
     base_uri := base_uri st; paused := paused st; locked := locked st;
     administrator := v |}.

(** ** The call environment: [sp.sender], [sp.amount], [sp.now],
       [sp.self_address], [sp.balance] *)

(** Mutez are below 2^63. *)
Definition mutez_bound : N := 9223372036854775808.

(** A mutez amount as the platform hands it to a call. *)
Record mutez_value := {
  mutez_to_N : N;
  mutez_in_range : (mutez_to_N <? mutez_bound) = true
}.

Lemma mod_mutez_bound_in_range (n : N) : (n mod mutez_bound <? mutez_bound) = true.
Proof. apply N.ltb_lt, N.mod_lt. discriminate. Qed.

Definition mutez_of_N (n : N) : mutez_value :=
  {| mutez_to_N := n mod mutez_bound;
     mutez_in_range := mod_mutez_bound_in_range n |}.

(** [sp.mul] of a mutez and a [nat]: the platform's multiplication, which
    aborts when the product is no mutez. *)
Definition mutez_mul (a : mutez) (n : N) : result mutez :=
  if a * n <? mutez_bound then Ok (a * n) else Failed MutezOverflow.

Record env := {
  sp_sender : address;
  sp_amount_value : mutez_value;
  sp_now : timestamp;
  sp_self_address : address;
  sp_balance_value : mutez_value;
  (* whether [sp.contract(sp.TUnit, a)] is [Some]: [a] is an address that
     takes a [unit] *)
  sp_contract_unit : address -> bool
}.

Definition sp_amount (e : env) : mutez := mutez_to_N (sp_amount_value e).
Definition sp_balance (e : env) : mutez := mutez_to_N (sp_balance_value e).

(** Operations a call emits: [sp.send] and the [balance_of] callback.  What
    the receivers do with them is not modelled. *)
Inductive operation :=
| Send (destination : address) (amount : mutez)
| Callback (destination : address) (responses : list Balance_of.response).

(** The storage after a call: a failed call leaves it as it was. *)
Definition commit {A} (before : storage) (r : result A) (after : A -> storage) : storage :=
  match r with
  | Ok a => after a
  | Failed _ => before
  end.

(** [sp.for x in l: body] over the storage *)
Fixpoint for_each {A} (body : A -> storage -> result storage) (l : list A)
    (st : storage) : result storage :=
  match l with
  | [] => Ok st
  | x :: l' => st' <- body x st ;; for_each body l' st'
  end.

(** [l.map(f)] for an [f] that may fail *)
Fixpoint map_result {A B} (f : A -> result B) (l : list A) : result (list B) :=
  match l with
  | [] => Ok []
  | x :: l' => y <- f x ;; ys <- map_result f l' ;; Ok (y :: ys)
  end.

(** [sp.range(a, b)] *)
Definition range (a b : N) : list N :=
  N.of_nat <$> seq (N.to_nat a) (N.to_nat (b - a)).

(** ** [bytes_of_nat] *)

(** [c = sp.map({x : sp.bytes(hex(x + 48)) for x in range(0, 10)})] *)
Definition digit_bytes : gmap N bytes :=
  list_to_map ((fun x => (x, [default Byte.x00 (Byte.of_N (x + 48))])) <$> range 0 10).

(** The [sp.while 0 < x.value] loop; [push] conses at the head of [res]. *)
Fixpoint bytes_of_nat_while (fuel : nat) (x : N) (res : list bytes) : result (list bytes) :=
  match fuel with
  | O => Ok res
  | S fuel' =>
      if 0 <? x then
        d <- get_item digit_bytes (x mod 10) ;;
        bytes_of_nat_while fuel' (x / 10) (d :: res)
      else Ok res
  end.

Definition bytes_of_nat (params : N) : result bytes :=
  res <- (if params =? 0
          then d <- get_item digit_bytes (params mod 10) ;; Ok [d]
          else Ok []) ;;
  res <- bytes_of_nat_while (N.size_nat params) params res ;;
  Ok (concat res).

(** ** The contract [FA2] *)

(** The record hashed at mint: [sp.record(now = sp.now, s = sp.sender, tid = token_id)] *)
Module Mint_record.
Record t := make { now : timestamp; s : address; tid : token_id_type }.
End Mint_record.

Inductive entry_point :=
| Transfer (params : list Batch_transfer.transfer)
| Balance_of_call (requests : list Balance_of.request) (callback : address)
| Update_operators (params : list operator_update)
| Set_mint_parameters (price : mutez) (max_editions : N)
| Set_administrator (params : address)
| Set_pause (params : bool)
| Lock
| Mint (amount : Z)
| Set_script (script : string)
| Set_base_uri (params : bytes)
| Transfer_mutez (destination : address) (amount : mutez).

Section FA2.

(** [sp.keccak] and [sp.pack] are primitives of the platform. *)
Variable keccak : bytes -> bytes.
Variable pack : Mint_record.t -> bytes.

Variable config : FA2_config.

(** *** [FA2_core.__init__], called from [FA2.__init__] with
        [paused = False, locked = False, administrator = admin] *)
Definition init (metadata : gmap string bytes) (admin : address) : storage :=
  {| ledger := ∅;
     hashes := ∅;
     operators := Operator_set.make;
     all_tokens := Token_id_set.empty;
     metadata := metadata;
     price := config_price config;
     max_editions := config_max_editions config;
     script := EmptyString;
     base_uri := String.list_byte_of_string (config_base_uri config);
     paused := false;
     locked := false;
     administrator := admin |}.

(** [FA2_pause.is_paused], [FA2_administrator.is_administrator] and
    [FA2_lock.is_locked], which [FA2] inherits before those of [FA2_core]. *)
Definition is_paused (st : storage) : bool := paused st.
Definition is_administrator (st : storage) (sender : address) : bool :=
  bool_decide (sender = administrator st).
Definition is_locked (st : storage) : bool := locked st.

(** *** [transfer] *)

(** The body of the inner loop, for one [tx] of a [transfer]. *)
Definition transfer_tx (e : env) (from_ : address) (tx : Batch_transfer.tx)
    (st : storage) : result storage :=
  let sender_verify :=
    bool_decide (from_ = sp_sender e)
    || Operator_set.is_member (operators st) from_ (sp_sender e)
         (Batch_transfer.token_id tx) in
  let message := Error_message.not_operator in
  let sender_verify :=
    if allow_self_transfer config
    then sender_verify || bool_decide (sp_sender e = sp_self_address e)
    else sender_verify in
  verify sender_verify message ;;;
  verify (contains (hashes st) (Batch_transfer.token_id tx)) Error_message.token_undefined ;;;
  verify (Batch_transfer.amount tx <=? 1) Error_message.insufficient_balance ;;;
  if Batch_transfer.amount tx =? 1 then
    owner <- get_item (ledger st) (Batch_transfer.token_id tx) ;;
    verify (bool_decide (owner = from_)) Error_message.insufficient_balance ;;;
    Ok (set_ledger (<[Batch_transfer.token_id tx := Batch_transfer.to_ tx]> (ledger st)) st)
  else Ok st.

Definition transfer (e : env) (params : list Batch_transfer.transfer)
    (st : storage) : result storage :=
  for_each (fun transfer =>
              for_each (transfer_tx e (Batch_transfer.from_ transfer))
                       (Batch_transfer.txs transfer))
           params st.

(** *** [balance_of] and the view [get_balance] *)

Definition f_process_request (st : storage) (req : Balance_of.request)
    : result Balance_of.response :=
  verify (contains (hashes st) (Balance_of.token_id req)) Error_message.token_undefined ;;;
  owner <- get_item (ledger st) (Balance_of.token_id req) ;;
  if bool_decide (owner = Balance_of.owner req)
  then Ok {| Balance_of.req := req; Balance_of.balance := 1 |}
  else Ok {| Balance_of.req := req; Balance_of.balance := 0 |}.

Definition balance_of (requests : list Balance_of.request) (callback : address)
    (st : storage) : result (list operation) :=
  responses <- map_result (f_process_request st) requests ;;
  Ok [Callback callback responses].

Definition get_balance (st : storage) (req : Balance_of.request) : result N :=
  verify (contains (hashes st) (Balance_of.token_id req)) Error_message.token_undefined ;;;
  owner <- get_item (ledger st) (Balance_of.token_id req) ;;
  if bool_decide (owner = Balance_of.owner req) then Ok 1 else Ok 0.

(** *** [update_operators] *)

Definition update_operator (e : env) (update : operator_update) (st : storage)
    : result storage :=
  match update with
  | add_operator upd =>
      verify (bool_decide (Operator_param.owner upd = sp_sender e)) Error_message.not_owner ;;;
      Ok (set_operators
            (Operator_set.add (operators st) (Operator_param.owner upd)
               (Operator_param.operator upd) (Operator_param.token_id upd)) st)
  | remove_operator upd =>
      verify (bool_decide (Operator_param.owner upd = sp_sender e)) Error_message.not_owner ;;;
      Ok (set_operators
            (Operator_set.remove (operators st) (Operator_param.owner upd)
               (Operator_param.operator upd) (Operator_param.token_id upd)) st)
  end.

Definition update_operators (e : env) (params : list operator_update)
    (st : storage) : result storage :=
  if support_operator config
  then for_each (update_operator e) params st
  else Failed (FAILWITH Error_message.operators_unsupported).

(** *** [set_mint_parameters] *)

Definition set_mint_parameters (e : env) (new_price : mutez) (new_max_editions : N)
    (st : storage) : result storage :=
  verify (is_administrator st (sp_sender e)) Error_message.not_admin ;;;
  verify (all_tokens st <=? 1) Error_message.sale_started ;;;
  verify (all_tokens st <=? new_max_editions) Error_message.bad_amount ;;;
  Ok (set_price new_price (set_max_editions new_max_editions st)).

(** *** [set_administrator], [set_pause], [lock] *)

Definition set_administrator (e : env) (params : address) (st : storage)
    : result storage :=
  verify (is_administrator st (sp_sender e)) Error_message.not_admin ;;;
  Ok (set_administrator_field params st).

Definition set_pause (e : env) (params : bool) (st : storage) : result storage :=
  verify (is_administrator st (sp_sender e)) Error_message.not_admin ;;;
  Ok (set_paused params st).

Definition lock (e : env) (st : storage) : result storage :=
  verify (is_administrator st (sp_sender e)) Error_message.not_admin ;;;
  Ok (set_locked true st).

(** *** [mint] *)

(** [sp.as_nat(x, message)] *)
Definition as_nat (x : Z) (message : string) : result N :=
  if (0 <=? x)%Z then Ok (Z.to_N x) else Failed (FAILWITH message).

(** [sp.keccak(sp.pack(sp.record(now = sp.now, s = sp.sender, tid = token_id)))] *)
Definition token_hash_of (e : env) (token_id : token_id_type) : bytes :=
  keccak (pack (Mint_record.make (sp_now e) (sp_sender e) token_id)).

(** One round of the issuance loop. *)
Definition mint_body (e : env) (st : storage) : result storage :=
  let token_id := all_tokens st in
  verify (token_id <? max_editions st) Error_message.max_editions_reached ;;;
  let token_hash := token_hash_of e token_id in
  let st := set_ledger (<[token_id := sp_sender e]> (ledger st)) st in
  let st := set_hashes (<[token_id := token_hash]> (hashes st)) st in
  all_tokens' <- Token_id_set.add (all_tokens st) token_id ;;
  Ok (set_all_tokens all_tokens' st).

(** [sp.while i > 0: ...; i.set(i - 1)].  The counter only goes down by
    one, so [Z.to_nat i] rounds of fuel are enough ([mint_while_eq]). *)
Fixpoint mint_while (fuel : nat) (e : env) (i : Z) (st : storage) : result storage :=
  match fuel with
  | O => Ok st
  | S fuel' =>
      if (0 <? i)%Z then
        st' <- mint_body e st ;;
        mint_while fuel' e (i - 1) st'
      else Ok st
  end.

Definition mint (e : env) (amount : Z) (st : storage) : result storage :=
  verify (0 <? amount)%Z Error_message.bad_amount ;;;
  verify (negb (is_paused st)) Error_message.paused ;;;
  nat_amount <- as_nat amount Error_message.bad_amount ;;
  total <- mutez_mul (price st) nat_amount ;;
  verify (sp_amount e =? total) Error_message.bad_value ;;;
  verify (all_tokens st + nat_amount <=? max_editions st) Error_message.max_editions_reached ;;;
  let i := amount in
  mint_while (Z.to_nat i) e i st.

(** *** [set_script], [set_base_uri] *)

Definition set_script (e : env) (new_script : string) (st : storage)
    : result storage :=
  verify (negb (is_locked st)) Error_message.locked ;;;
  verify (is_administrator st (sp_sender e)) Error_message.not_admin ;;;
  Ok (set_script_field new_script st).

Definition set_base_uri (e : env) (params : bytes) (st : storage)
    : result storage :=
  verify (negb (is_locked st)) Error_message.locked ;;;
  verify (is_administrator st (sp_sender e)) Error_message.not_admin ;;;
  Ok (set_base_uri_field params st).

(** *** [mutez_transfer], the entry point [transfer_mutez] *)

(** [sp.send(destination, amount)]: the transfer of [amount] and [unit] to
    [sp.contract(sp.TUnit, destination).open_some()]. *)
Definition send (e : env) (destination : address) (amount : mutez)
    : result (list operation) :=
  if sp_contract_unit e destination
  then Ok [Send destination amount]
  else Failed OpenSomeOnNone.

Definition mutez_transfer (e : env) (destination : address) (amount : mutez)
    (st : storage) : result (list operation) :=
  verify_no_message (bool_decide (sp_sender e = administrator st)) ;;;
  verify_no_message (amount <=? sp_balance e) ;;;
  send e destination amount.

(** *** Off-chain views *)

Definition make_metadata (symbol name : string) (decimals : N)
    (token_hash uri : bytes) : gmap string bytes :=
  list_to_map
    [ ("decimals", String.list_byte_of_string (pretty decimals));
      ("name", String.list_byte_of_string name);
      ("symbol", String.list_byte_of_string symbol);
      ("token_hash", token_hash);
      (EmptyString, uri) ].

Record token_metadata_value := {
  tm_token_id : token_id_type;
  tm_token_info : gmap string bytes
}.

Definition token_metadata (st : storage) (token_id : token_id_type)
    : result token_metadata_value :=
  verify (token_id <? all_tokens st) Error_message.token_undefined ;;;
  token_hash <- get_item (hashes st) token_id ;;
  digits <- bytes_of_nat token_id ;;
  let metadata :=
    make_metadata "BOB" "Blocks on Blocks" 0 token_hash (base_uri st ++ digits)%list in
  Ok {| tm_token_id := token_id; tm_token_info := metadata |}.

Definition count_tokens (st : storage) : N :=
  Token_id_set.cardinal (all_tokens st).

Definition does_token_exist (st : storage) (tok : token_id_type) : bool :=
  contains (hashes st) tok.

Definition all_tokens_view (st : storage) : list N :=
  range 0 (all_tokens st).


Definition is_operator (st : storage) (query : Operator_param.t) : bool :=
  Operator_set.is_member (operators st) (Operator_param.owner query)
    (Operator_param.operator query) (Operator_param.token_id query).

(** *** Calls and traces *)

Definition no_operation (r : result storage) : result (list operation * storage) :=
  st' <- r ;; Ok ([], st').

Definition keep_storage (st : storage) (r : result (list operation))
    : result (list operation * storage) :=
  ops <- r ;; Ok (ops, st).

Definition call (e : env) (ep : entry_point) (st : storage)
    : result (list operation * storage) :=
  match ep with
  | Transfer params => no_operation (transfer e params st)
  | Balance_of_call requests callback => keep_storage st (balance_of requests callback st)
  | Update_operators params => no_operation (update_operators e params st)
  | Set_mint_parameters p m => no_operation (set_mint_parameters e p m st)
  | Set_administrator a => no_operation (set_administrator e a st)
  | Set_pause b => no_operation (set_pause e b st)
  | Lock => no_operation (lock e st)
  | Mint amount => no_operation (mint e amount st)
  | Set_script sc => no_operation (set_script e sc st)
  | Set_base_uri b => no_operation (set_base_uri e b st)
  | Transfer_mutez d a => keep_storage st (mutez_transfer e d a st)
  end.

(** The storage once the call has run: that of [commit]. *)
Definition run (e : env) (ep : entry_point) (st : storage) : storage :=
  commit st (call e ep st) snd.

(** A trace of calls, each in its own environment. *)
Fixpoint run_trace (calls : list (env * entry_point)) (st : storage) : storage :=
  match calls with
  | [] => st
  | (e, ep) :: calls' => run_trace calls' (run e ep st)
  end.

(** The storages the contract can be in after origination. *)
Definition reachable (metadata : gmap string bytes) (admin : address)
    (st : storage) : Prop :=
  exists calls, st = run_trace calls (init metadata admin).

(** *** What the properties below are stated with *)

(** What a successful [mint] of [n] tokens in environment [e] makes of the
    storage: the counter advances by [n], the ids from the old counter on
    are owned by the caller and carry its commitment, and nothing else
    changes. *)
Definition minted (e : env) (st : storage) (n : N) (st' : storage) : Prop :=
  all_tokens st' = all_tokens st + n
  /\ (forall id, all_tokens st <= id < all_tokens st + n ->
        ledger st' !! id = Some (sp_sender e)
        /\ hashes st' !! id = Some (token_hash_of e id))
  /\ (forall id, ~ (all_tokens st <= id < all_tokens st + n) ->
        ledger st' !! id = ledger st !! id
        /\ hashes st' !! id = hashes st !! id)
  /\ st' = set_all_tokens (all_tokens st')
             (set_hashes (hashes st') (set_ledger (ledger st') st)).

(** The registry is kept from [st] to [st']: the same ids have an owner,
    the commitments and the counter are the same, and a set lock stays. *)
Definition registry_kept (st st' : storage) : Prop :=
  (forall id, is_Some (ledger st' !! id) <-> is_Some (ledger st !! id))
  /\ hashes st' = hashes st
  /\ all_tokens st' = all_tokens st
  /\ (locked st = true -> locked st' = true).

(** The owner map and the commitment map have the same keys, which are the
    ids below [all_tokens]. *)
Definition registry_invariant (st : storage) : Prop :=
  dom (ledger st) =@{gset N} dom (hashes st)
  /\ dom (hashes st) =@{gset N} list_to_set (range 0 (all_tokens st)).

(** The caller may move [token_id] out of [from_]: it is [from_], or an
    operator of [from_] for that token, or, where the configuration allows
    self-transfer, the contract itself. *)
Definition authorized (e : env) (st : storage) (from_ : string) (token_id : N)
    : Prop :=
  from_ = sp_sender e
  \/ Operator_set.make_key from_ (sp_sender e) token_id ∈ operators st
  \/ (allow_self_transfer config = true /\ sp_sender e = sp_self_address e).

(** The legs of a batch, in input order, each with the [from_] of its group. *)
Definition legs (params : list Batch_transfer.transfer)
    : list (string * Batch_transfer.tx) :=
  flat_map (fun transfer => map (pair (Batch_transfer.from_ transfer))
                                (Batch_transfer.txs transfer)) params.

Definition transfer_leg (e : env) (leg : string * Batch_transfer.tx)
    (st : storage) : result storage :=
  transfer_tx e (fst leg) (snd leg) st.

(** The key of the operator set that an update is about. *)
Definition operator_key (upd : Operator_param.t) : Operator_set.key :=
  Operator_set.make_key (Operator_param.owner upd) (Operator_param.operator upd)
    (Operator_param.token_id upd).

End FA2.

(** ** The name [FA2_config.__init__] gives a configuration *)

Definition FA2_config_name
    (debug_mode readable force_layouts support_operator allow_self_transfer : bool)
    : string :=
  let name := "FA2" in
  let name := if debug_mode then name +:+ "-debug" else name in
  let name := if negb readable then name +:+ "-no_readable" else name in
  let name := if negb force_layouts then name +:+ "-no_layout" else name in
  let name := if negb support_operator then name +:+ "-no_ops" else name in
  let name := if allow_self_transfer then name +:+ "-self_transfer" else name in
  name.

(** ** [View_consumer], the receiver of the [balance_of] callback *)

Module View_consumer.
Record t := { last_sum : N; operator_support : bool }.

Definition init (config : FA2_config) : t :=
  {| last_sum := 0; operator_support := negb (support_operator config) |}.

Definition set_last_sum (v : N) (st : t) : t :=
  {| last_sum := v; operator_support := operator_support st |}.

Definition reinit (st : t) : t := set_last_sum 0 st.

(** [self.data.last_sum = 0], then [last_sum += resp.balance] for each
    response in order. *)
Definition receive_balances (params : list Balance_of.response) (st : t) : t :=
  fold_left (fun st resp => set_last_sum (last_sum st + Balance_of.balance resp) st)
            params (set_last_sum 0 st).
End View_consumer.

(** ** Notions the further properties are stated with *)

(** The decimal digits of [n], as bytes. *)
Definition decimal (n : N) : list Byte.byte :=
  String.list_byte_of_string (pretty n).

(** The fields only the administrator is meant to write. *)
Definition governance (st : storage)
    : string * bool * bool * N * N * string * list Byte.byte :=
  (administrator st, paused st, locked st, price st, max_editions st,
   script st, base_uri st).

(** What [balance_of] answers to a request: 1 if the request's owner owns
    the token, 0 otherwise. *)
Definition response_for (st : storage) (r : Balance_of.request)
    : Balance_of.response :=
  {| Balance_of.req := r;
     Balance_of.balance :=
       if bool_decide (ledger st !! Balance_of.token_id r = Some (Balance_of.owner r))
       then 1 else 0 |}.

(** The owner an update names. *)
Definition update_owner (update : operator_update) : string :=
  match update with
  | add_operator upd => Operator_param.owner upd
  | remove_operator upd => Operator_param.owner upd
  end.

(** The sum of the balances of a list of responses. *)
Definition sum_balances (responses : list Balance_of.response) : N :=
  foldr (fun resp acc => Balance_of.balance resp + acc) 0 responses.

(** * The scenarios' contract

    The contract of [default_config], originated by ["admin"], with the
    accounts of the test scenarios.  [sp.keccak] and [sp.pack] are replaced
    by two stand-ins; the theorems below hold for any. *)

Definition test_pack (r : Mint_record.t) : list Byte.byte :=
  (String.list_byte_of_string (pretty (Mint_record.now r))
   ++ String.list_byte_of_string (Mint_record.s r)
   ++ String.list_byte_of_string (pretty (Mint_record.tid r)))%list.

Definition test_keccak (b : list Byte.byte) : list Byte.byte := rev b.

Definition origin : storage :=
  init default_config
    {[ EmptyString := String.list_byte_of_string "https://example.com" ]} "admin".

(** A call by [sender] carrying [amount] mutez.  The accounts take a [unit];
    the originated contracts, whose addresses start with KT1, do not. *)
Definition call_by (sender : string) (amount : N) : env :=
  {| sp_sender := sender;
     sp_amount_value := mutez_of_N amount;
     sp_now := 1621000000%Z;
     sp_self_address := "KT1_FA2";
     sp_balance_value := mutez_of_N 5000000;
     sp_contract_unit := fun a => negb (String.prefix "KT1" a) |}.

Definition test_run : list (env * entry_point) -> storage -> storage :=
  run_trace test_keccak test_pack default_config.

(** Alice has minted token 0; then also token 1. *)
Definition one_minted : storage :=
  test_run [(call_by "alice" 1000000, Mint 1)] origin.
Definition two_minted : storage :=
  test_run [(call_by "alice" 1000000, Mint 1)] one_minted.

Definition bob_is_operator : Operator_param.t :=
  Operator_param.make "alice" "bob" 0.

(** Alice has made Bob an operator of token 0. *)
Definition granted : storage :=
  test_run [(call_by "alice" 0, Update_operators [add_operator bob_is_operator])]
    one_minted.

Definition two_of_token_0_to_bob : Batch_transfer.tx :=
  {| Batch_transfer.to_ := "bob";
     Batch_transfer.token_id := 0;
     Batch_transfer.amount := 2 |}.

Definition origin_metadata : gmap string (list Byte.byte) :=
  {[ EmptyString := String.list_byte_of_string "https://example.com" ]}.

(** Alice sends token 0 to Bob. *)
Definition alice_gives_token_0_to_bob : list Batch_transfer.transfer :=
  [ {| Batch_transfer.from_ := "alice";
       Batch_transfer.txs :=
         [ {| Batch_transfer.to_ := "bob";
              Batch_transfer.token_id := 0;
              Batch_transfer.amount := 1 |} ] |} ].

(** * Properties *)

(** ** The result monad *)

Lemma verify_true (c : bool) (m : string) : c = true -> verify c m = Ok tt.
Proof. intros ->. reflexivity. Qed.

Lemma verify_false (c : bool) (m : string) :
  c = false -> verify c m = Failed (FAILWITH m).
Proof. intros ->. reflexivity. Qed.

Lemma bind_ok {A B} (r : result A) (k : A -> result B) (b : B) :
  bind r k = Ok b -> exists a, r = Ok a /\ k a = Ok b.
Proof. destruct r as [a|err]; simpl; [eauto | discriminate]. Qed.

Lemma verify_ok (c : bool) (m : string) (u : unit) : verify c m = Ok u -> c = true.
Proof. destruct c; [reflexivity | discriminate]. Qed.

Lemma get_item_ok {K V} `{Countable K} (m : gmap K V) (k : K) (v : V) :
  get_item m k = Ok v <-> m !! k = Some v.
Proof.
  unfold get_item. destruct (m !! k); split; intros Heq;
    try discriminate; congruence.
Qed.

Lemma contains_true {K V} `{Countable K} (m : gmap K V) (k : K) :
  contains m k = true <-> is_Some (m !! k).
Proof. unfold contains. apply bool_decide_eq_true. Qed.


Lemma sp_balance_in_range (e : env) : sp_balance e < mutez_bound.
Proof. apply N.ltb_lt, mutez_in_range. Qed.



Lemma mutez_mul_inv (a n t : N) :
  mutez_mul a n = Ok t -> t = a * n /\ a * n < mutez_bound.
Proof.
  unfold mutez_mul. destruct (a * n <? mutez_bound) eqn:H; [|discriminate].
  intros Heq. injection Heq as <-. split; [reflexivity | apply N.ltb_lt, H].
Qed.

(** Splits the conjunctions of the goal, and nothing under a binder. *)
Ltac conjs := repeat match goal with |- _ /\ _ => split end.

(** Splits a hypothesis [x <- r ;; k = Ok b] into its successful steps. *)
Ltac bind_inv H :=
  repeat match type of H with
  | bind (verify _ _) _ = Ok _ =>
      let u := fresh "u" in let Hv := fresh "Hv" in
      apply bind_ok in H as (u & Hv & H); apply verify_ok in Hv
  | bind _ _ = Ok _ =>
      let a := fresh "a" in let Ha := fresh "Ha" in
      apply bind_ok in H as (a & Ha & H)
  end.

Lemma for_each_app {A} (body : A -> storage -> result storage) (l1 l2 : list A)
    (st : storage) :
  for_each body (l1 ++ l2) st = (st' <- for_each body l1 st ;; for_each body l2 st').
Proof.
  revert st. induction l1 as [|x l1 IH]; intros st; simpl; [reflexivity|].
  destruct (body x st) as [st1|err]; simpl; [apply IH | reflexivity].
Qed.

(** A relation between storages that every round of a loop establishes
    holds between the ends of the loop. *)
Lemma for_each_rel {A} (R : storage -> storage -> Prop)
    (body : A -> storage -> result storage) :
  (forall st, R st st) ->
  (forall st1 st2 st3, R st1 st2 -> R st2 st3 -> R st1 st3) ->
  (forall x st st', body x st = Ok st' -> R st st') ->
  forall l st st', for_each body l st = Ok st' -> R st st'.
Proof.
  intros Hrefl Htrans Hbody l.
  induction l as [|x l IH]; intros st st' H; simpl in H.
  - injection H as <-. apply Hrefl.
  - bind_inv H. eapply Htrans; [eapply Hbody | eapply IH]; eassumption.
Qed.

(** ** [bytes_of_nat]: the fuel is enough *)

Lemma size_nat_div_10 (x : N) :
  0 < x -> (N.size_nat (x / 10) < N.size_nat x)%nat.
Proof.
  intros Hx. destruct x as [|p]; [lia|].
  destruct (N.pos p / 10) as [|q] eqn:Hq; simpl.
  - destruct p; simpl; lia.
  - assert (10 * N.pos q <= N.pos p) as Hle
      by (rewrite <- Hq; apply N.Div0.mul_div_le).
    destruct (Pos.size_nat p) as [|m] eqn:Hm; [destruct p; discriminate|].
    assert (Z.pos p < 2 ^ Z.of_nat (S m))%Z as Hp
      by (apply Zpow_facts.Zpower2_Psize; lia).
    rewrite Nat2Z.inj_succ, Z.pow_succ_r in Hp by lia.
    assert (Z.pos q < 2 ^ Z.of_nat m)%Z as Hlt by lia.
    apply Zpow_facts.Zpower2_Psize in Hlt. lia.
Qed.

Lemma bytes_of_nat_while_fuel (fuel1 : nat) :
  forall (fuel2 : nat) (x : N) (res : list (list Byte.byte)),
    (N.size_nat x <= fuel1)%nat -> (N.size_nat x <= fuel2)%nat ->
    bytes_of_nat_while fuel1 x res = bytes_of_nat_while fuel2 x res.
Proof.
  induction fuel1 as [|fuel1 IH]; intros fuel2 x res H1 H2.
  - destruct x as [|p]; [|destruct p; simpl in H1; lia].
    destruct fuel2; reflexivity.
  - destruct (0 <? x) eqn:Hx.
    + pose proof (size_nat_div_10 x (proj1 (N.ltb_lt _ _) Hx)) as Hdiv.
      destruct fuel2 as [|fuel2]; [lia|]. cbn [bytes_of_nat_while]. rewrite Hx.
      destruct (get_item digit_bytes (x mod 10)); cbn [bind]; [|reflexivity].
      apply IH; lia.
    + destruct fuel2; cbn [bytes_of_nat_while]; rewrite ?Hx; reflexivity.
Qed.

(** The loop of [bytes_of_nat] satisfies the equation of
    [sp.while 0 < x.value]. *)
Lemma bytes_of_nat_while_eq (x : N) (res : list (list Byte.byte)) :
  bytes_of_nat_while (N.size_nat x) x res
  = if 0 <? x
    then d <- get_item digit_bytes (x mod 10) ;;
         bytes_of_nat_while (N.size_nat (x / 10)) (x / 10) (d :: res)
    else Ok res.
Proof.
  destruct (0 <? x) eqn:Hx.
  - pose proof (size_nat_div_10 x (proj1 (N.ltb_lt _ _) Hx)) as Hdiv.
    destruct (N.size_nat x) as [|fuel] eqn:Hfuel; [lia|]. cbn [bytes_of_nat_while]. rewrite Hx.
    destruct (get_item digit_bytes (x mod 10)); cbn [bind]; [|reflexivity].
    apply bytes_of_nat_while_fuel; lia.
  - destruct (N.size_nat x); cbn [bytes_of_nat_while]; rewrite ?Hx; reflexivity.
Qed.

Example bytes_of_nat_digits :
  bytes_of_nat 0 = Ok (String.list_byte_of_string "0")
  /\ bytes_of_nat 7 = Ok (String.list_byte_of_string "7")
  /\ bytes_of_nat 4096 = Ok (String.list_byte_of_string "4096").
Proof. vm_compute. conjs; reflexivity. Qed.

Section Properties.

Variable keccak : bytes -> bytes.
Variable pack : Mint_record.t -> bytes.
Variable config : FA2_config.

(** ** Governance: [set_script], [set_base_uri], [set_mint_parameters] *)

(** C10.  In [set_script] and [set_base_uri] the lock check comes before
    the administrator check: on a locked contract both fail with
    [FA2_LOCKED], whoever calls, and so never with [FA2_NOT_ADMIN]. *)
Theorem locked_checked_before_admin (e : env) (st : storage)
    (new_script : string) (new_base_uri : bytes) :
  locked st = true ->
  set_script e new_script st = Failed (FAILWITH Error_message.locked)
  /\ set_base_uri e new_base_uri st = Failed (FAILWITH Error_message.locked)
  /\ set_script e new_script st <> Failed (FAILWITH Error_message.not_admin)
  /\ set_base_uri e new_base_uri st <> Failed (FAILWITH Error_message.not_admin).
Proof.
  intros Hl. unfold set_script, set_base_uri, is_locked. rewrite Hl. simpl.
  conjs; (reflexivity || discriminate).
Qed.

(** C5.  [set_mint_parameters(price, max_editions)], its checks in order:
    [FA2_NOT_ADMIN] unless the caller is the administrator; then
    [FA2_SALE_STARTED] unless [all_tokens <= 1]; then [FA2_BAD_QUANTITY] if
    the new ceiling is below [all_tokens]; otherwise the call succeeds and
    overwrites [price] and [max_editions], and nothing else. *)
Theorem set_mint_parameters_spec (e : env) (new_price : mutez)
    (new_max_editions : N) (st : storage) :
  (sp_sender e <> administrator st ->
     set_mint_parameters e new_price new_max_editions st
     = Failed (FAILWITH Error_message.not_admin))
  /\ (sp_sender e = administrator st -> 1 < all_tokens st ->
     set_mint_parameters e new_price new_max_editions st
     = Failed (FAILWITH Error_message.sale_started))
  /\ (sp_sender e = administrator st -> all_tokens st <= 1 ->
     new_max_editions < all_tokens st ->
     set_mint_parameters e new_price new_max_editions st
     = Failed (FAILWITH Error_message.bad_amount))
  /\ (sp_sender e = administrator st -> all_tokens st <= 1 ->
     all_tokens st <= new_max_editions ->
     exists st',
       set_mint_parameters e new_price new_max_editions st = Ok st'
       /\ price st' = new_price /\ max_editions st' = new_max_editions
       /\ st' = set_price new_price (set_max_editions new_max_editions st)).
Proof.
  unfold set_mint_parameters, is_administrator. conjs.
  - intros Hna. rewrite bool_decide_eq_false_2 by assumption. reflexivity.
  - intros Ha Hlt. rewrite bool_decide_eq_true_2 by assumption. simpl.
    rewrite verify_false by (apply N.leb_gt; lia). reflexivity.
  - intros Ha Hle Hlt. rewrite bool_decide_eq_true_2 by assumption. simpl.
    rewrite verify_true by (apply N.leb_le; lia). simpl.
    rewrite verify_false by (apply N.leb_gt; lia). reflexivity.
  - intros Ha Hle Hle'. rewrite bool_decide_eq_true_2 by assumption. simpl.
    rewrite verify_true by (apply N.leb_le; lia). simpl.
    rewrite verify_true by (apply N.leb_le; lia). simpl.
    eexists. conjs; reflexivity.
Qed.

(** ** Withdrawal: [mutez_transfer] *)

(** C9, as amended.  [mutez_transfer(destination, amount)] fails when the
    caller is not the administrator and fails when [amount] exceeds
    [sp.balance]; both checks are [sp.verify] without a message, so the
    failure is the unnamed one, not [FA2_NOT_ADMIN].  Past the two checks
    [sp.send] fails when the destination is no address that takes a
    [unit]; otherwise the call emits exactly the transfer of [amount] to
    [destination], and the storage is as before. *)
Theorem mutez_transfer_spec (e : env) (destination : address) (amount : mutez)
    (st : storage) :
  (sp_sender e <> administrator st ->
     mutez_transfer e destination amount st = Failed WrongCondition)
  /\ (sp_sender e = administrator st -> sp_balance e < amount ->
     mutez_transfer e destination amount st = Failed WrongCondition)
  /\ (sp_sender e = administrator st -> amount <= sp_balance e ->
     sp_contract_unit e destination = false ->
     mutez_transfer e destination amount st = Failed OpenSomeOnNone)
  /\ (sp_sender e = administrator st -> amount <= sp_balance e ->
     sp_contract_unit e destination = true ->
     mutez_transfer e destination amount st = Ok [Send destination amount]
     /\ call keccak pack config e (Transfer_mutez destination amount) st
        = Ok ([Send destination amount], st)).
Proof.
  unfold call, mutez_transfer, send. conjs.
  - intros Hna. rewrite bool_decide_eq_false_2 by assumption. reflexivity.
  - intros Ha Hlt. rewrite bool_decide_eq_true_2 by assumption. simpl.
    replace (amount <=? sp_balance e) with false
      by (symmetry; apply N.leb_gt; lia).
    reflexivity.
  - intros Ha Hle Hunit. rewrite bool_decide_eq_true_2 by assumption. simpl.
    replace (amount <=? sp_balance e) with true
      by (symmetry; apply N.leb_le; lia).
    simpl. rewrite Hunit. reflexivity.
  - intros Ha Hle Hunit. rewrite bool_decide_eq_true_2 by assumption. simpl.
    replace (amount <=? sp_balance e) with true
      by (symmetry; apply N.leb_le; lia).
    simpl. rewrite Hunit. split; reflexivity.
Qed.

(** ** Minting *)

Lemma mint_body_ok (e : env) (st : storage) :
  all_tokens st < max_editions st ->
  mint_body keccak pack e st
  = Ok (set_all_tokens (all_tokens st + 1)
          (set_hashes (<[all_tokens st := token_hash_of keccak pack e (all_tokens st)]>
                         (hashes st))
             (set_ledger (<[all_tokens st := sp_sender e]> (ledger st)) st))).
Proof.
  intros Hlt. unfold mint_body, Token_id_set.add.
  rewrite verify_true by (apply N.ltb_lt; assumption). simpl.
  rewrite N.eqb_refl. reflexivity.
Qed.

(** The fuel given by [mint] is enough: the loop satisfies the equation of
    [sp.while i > 0]. *)
Lemma mint_while_eq (e : env) (i : Z) (st : storage) :
  mint_while keccak pack (Z.to_nat i) e i st
  = if (0 <? i)%Z
    then st' <- mint_body keccak pack e st ;;
         mint_while keccak pack (Z.to_nat (i - 1)) e (i - 1) st'
    else Ok st.
Proof.
  destruct (0 <? i)%Z eqn:Hi.
  - apply Z.ltb_lt in Hi.
    replace (Z.to_nat i) with (S (Z.to_nat (i - 1))) by lia.
    simpl. apply Z.ltb_lt in Hi. rewrite Hi. reflexivity.
  - apply Z.ltb_ge in Hi.
    replace (Z.to_nat i) with O by lia. reflexivity.
Qed.

Lemma mint_while_ok (e : env) (fuel : nat) :
  forall (i : Z) (st : storage),
    Z.to_nat i = fuel ->
    all_tokens st + Z.to_N i <= max_editions st ->
    exists st', mint_while keccak pack fuel e i st = Ok st'
                /\ minted keccak pack e st (Z.to_N i) st'.
Proof.
  induction fuel as [|fuel IH]; intros i st Hfuel Hroom.
  - exists st. split; [reflexivity|].
    replace (Z.to_N i) with 0 by lia.
    unfold minted. conjs.
    + lia.
    + intros id Hid. lia.
    + intros id _. split; reflexivity.
    + destruct st; reflexivity.
  - simpl. replace (0 <? i)%Z with true by (symmetry; apply Z.ltb_lt; lia).
    rewrite mint_body_ok by lia. simpl.
    match goal with |- context [mint_while _ _ _ _ _ ?st1] => set (st1' := st1) end.
    destruct (IH (i - 1)%Z st1') as (st' & Hrun & Hall & Hnew & Hold & Hframe).
    + lia.
    + subst st1'. simpl. lia.
    + exists st'. split; [exact Hrun|].
      subst st1'. simpl in *. unfold minted. conjs.
      * lia.
      * intros id Hid.
        destruct (decide (id = all_tokens st)) as [->|Hne].
        -- destruct (Hold (all_tokens st)) as [Hl Hh]; [lia|].
           rewrite Hl, Hh, !lookup_insert_eq. split; reflexivity.
        -- apply Hnew. lia.
      * intros id Hid.
        destruct (Hold id) as [Hl Hh]; [lia|].
        rewrite Hl, Hh, !lookup_insert_ne by lia. split; reflexivity.
      * rewrite Hframe. reflexivity.
Qed.



(** ** What each entry point leaves alone *)

(** Closes [registry_kept st st'] when [st'] is [st] with other fields set. *)
Ltac kept := unfold registry_kept; simpl; conjs; (tauto || reflexivity).

Lemma registry_kept_refl (st : storage) : registry_kept st st.
Proof. unfold registry_kept. conjs; tauto. Qed.

Lemma registry_kept_trans (st1 st2 st3 : storage) :
  registry_kept st1 st2 -> registry_kept st2 st3 -> registry_kept st1 st3.
Proof.
  intros (Hl1 & Hh1 & Ha1 & Hk1) (Hl2 & Hh2 & Ha2 & Hk2).
  unfold registry_kept. conjs.
  - intros id. rewrite Hl2. apply Hl1.
  - congruence.
  - congruence.
  - auto.
Qed.

(** A successful leg either leaves the storage alone or gives a new owner
    to a token that has one. *)
Lemma transfer_tx_ok (e : env) (from_ : address) (tx : Batch_transfer.tx)
    (st st' : storage) :
  transfer_tx config e from_ tx st = Ok st' ->
  st' = st
  \/ (ledger st !! Batch_transfer.token_id tx = Some from_
      /\ st' = set_ledger (<[Batch_transfer.token_id tx := Batch_transfer.to_ tx]>
                             (ledger st)) st).
Proof.
  unfold transfer_tx. intros H. bind_inv H.
  destruct (Batch_transfer.amount tx =? 1).
  - bind_inv H. injection H as <-. right.
    apply get_item_ok in Ha. apply bool_decide_eq_true_1 in Hv2. subst a.
    split; [exact Ha | reflexivity].
  - injection H as <-. left; reflexivity.
Qed.

Lemma transfer_tx_kept (e : env) (from_ : address) (tx : Batch_transfer.tx)
    (st st' : storage) :
  transfer_tx config e from_ tx st = Ok st' ->
  registry_kept st st' /\ st' = set_ledger (ledger st') st.
Proof.
  intros H. apply transfer_tx_ok in H as [->|[Ho ->]].
  - split; [apply registry_kept_refl | destruct st; reflexivity].
  - split; [|reflexivity]. unfold registry_kept.
    cbn [ledger hashes all_tokens locked set_ledger]. conjs; try tauto.
    intros id. destruct (decide (id = Batch_transfer.token_id tx)) as [->|Hne].
    + rewrite lookup_insert_eq, Ho. split; eauto.
    + rewrite lookup_insert_ne by congruence. tauto.
Qed.

(** [transfer] writes the [ledger] only, and only under ids that are in it. *)
Lemma transfer_kept (e : env) (params : list Batch_transfer.transfer)
    (st st' : storage) :
  transfer config e params st = Ok st' ->
  registry_kept st st' /\ st' = set_ledger (ledger st') st.
Proof.
  unfold transfer.
  apply (for_each_rel
           (fun st st' => registry_kept st st' /\ st' = set_ledger (ledger st') st)).
  - intros st0. split; [apply registry_kept_refl | destruct st0; reflexivity].
  - intros st1 st2 st3 [Hk1 Hf1] [Hk2 Hf2].
    split; [eapply registry_kept_trans; eassumption|].
    rewrite Hf2, Hf1. reflexivity.
  - intros tr. apply for_each_rel.
    + intros st0. split; [apply registry_kept_refl | destruct st0; reflexivity].
    + intros st1 st2 st3 [Hk1 Hf1] [Hk2 Hf2].
      split; [eapply registry_kept_trans; eassumption|].
      rewrite Hf2, Hf1. reflexivity.
    + intros tx st0 st0'. apply transfer_tx_kept.
Qed.

Lemma update_operators_kept (e : env) (params : list operator_update)
    (st st' : storage) :
  update_operators config e params st = Ok st' ->
  st' = set_operators (operators st') st.
Proof.
  unfold update_operators. destruct (support_operator config); [|discriminate].
  apply (for_each_rel (fun st st' => st' = set_operators (operators st') st)).
  - intros st0. destruct st0; reflexivity.
  - intros st1 st2 st3 H1 H2. rewrite H2, H1. reflexivity.
  - intros [upd|upd] st0 st0' H; simpl in H; bind_inv H;
      injection H as <-; reflexivity.
Qed.

Lemma mint_ok_minted (e : env) (amount : Z) (st st' : storage) :
  mint keccak pack e amount st = Ok st' -> minted keccak pack e st (Z.to_N amount) st'.
Proof.
  intros H. pose proof H as Hrun. unfold mint in H. bind_inv H.
  apply Z.ltb_lt in Hv. apply N.leb_le in Hv2.
  unfold as_nat in Ha.
  destruct (0 <=? amount)%Z; [injection Ha as <- | discriminate].
  destruct (mint_while_ok e (Z.to_nat amount) amount st eq_refl Hv2)
    as (st'' & Hrun' & Hminted).
  congruence.
Qed.

(** Every call that is not a [mint] keeps the registry. *)
Lemma call_kept (e : env) (ep : entry_point) (ops : list operation)
    (st st' : storage) :
  (forall amount, ep <> Mint amount) ->
  call keccak pack config e ep st = Ok (ops, st') ->
  registry_kept st st'.
Proof.
  intros Hmint H.
  destruct ep; simpl in H; unfold no_operation, keep_storage in H;
    bind_inv H; injection H as <- <-;
    try apply registry_kept_refl.
  - apply transfer_kept in Ha as [Hk _]. exact Hk.
  - apply update_operators_kept in Ha. rewrite Ha. kept.
  - unfold set_mint_parameters in Ha. bind_inv Ha. injection Ha as <-. kept.
  - unfold set_administrator in Ha. bind_inv Ha. injection Ha as <-. kept.
  - unfold set_pause in Ha. bind_inv Ha. injection Ha as <-. kept.
  - unfold lock in Ha. bind_inv Ha. injection Ha as <-. kept.
  - exfalso. eapply Hmint; reflexivity.
  - unfold set_script in Ha. bind_inv Ha. injection Ha as <-. kept.
  - unfold set_base_uri in Ha. bind_inv Ha. injection Ha as <-. kept.
Qed.

(** ** The registry invariant *)

Lemma elem_of_range (a b x : N) : x ∈ range a b <-> a <= x < b.
Proof.
  unfold range. rewrite list_elem_of_fmap. split.
  - intros (y & -> & Hy). apply elem_of_seq in Hy. lia.
  - intros Hx. exists (N.to_nat x). split; [lia|]. apply elem_of_seq. lia.
Qed.

Lemma registry_invariant_lookup (st : storage) :
  registry_invariant st
  <-> forall id, (is_Some (ledger st !! id) <-> id < all_tokens st)
                 /\ (is_Some (hashes st !! id) <-> id < all_tokens st).
Proof.
  unfold registry_invariant. split.
  - intros [Hlh Hh] id. rewrite <- !elem_of_dom, Hlh, Hh.
    rewrite elem_of_list_to_set, elem_of_range. split; split; lia.
  - intros Hinv.
    assert (dom (hashes st) =@{gset N} list_to_set (range 0 (all_tokens st))) as Hh.
    { apply set_eq. intros id.
      rewrite elem_of_dom, elem_of_list_to_set, elem_of_range.
      destruct (Hinv id) as [_ ->]. lia. }
    split; [|exact Hh].
    rewrite Hh. apply set_eq. intros id.
    rewrite elem_of_dom, elem_of_list_to_set, elem_of_range.
    destruct (Hinv id) as [-> _]. lia.
Qed.

Lemma registry_invariant_init (metadata : gmap string (list Byte.byte))
    (admin : string) :
  registry_invariant (init config metadata admin).
Proof.
  apply registry_invariant_lookup. intros id. simpl.
  rewrite !lookup_empty. unfold Token_id_set.empty.
  split; split; intros H; solve [destruct H; discriminate | lia].
Qed.

Lemma registry_kept_invariant (st st' : storage) :
  registry_kept st st' -> registry_invariant st -> registry_invariant st'.
Proof.
  intros (Hl & Hh & Ha & _). rewrite !registry_invariant_lookup.
  intros Hinv id. rewrite Hl, Hh, Ha. apply Hinv.
Qed.

Lemma minted_invariant (e : env) (n : N) (st st' : storage) :
  minted keccak pack e st n st' -> registry_invariant st -> registry_invariant st'.
Proof.
  intros (Ha & Hnew & Hold & _). rewrite !registry_invariant_lookup.
  intros Hinv id. rewrite Ha.
  destruct (decide (all_tokens st <= id < all_tokens st + n)) as [Hin|Hout].
  - destruct (Hnew id Hin) as [-> ->]. split; split; eauto; lia.
  - destruct (Hold id Hout) as [-> ->]. destruct (Hinv id) as [-> ->].
    split; split; lia.
Qed.

Lemma minted_hashes (e : env) (n : N) (st st' : storage) (id : N)
    (h : list Byte.byte) :
  minted keccak pack e st n st' -> registry_invariant st ->
  hashes st !! id = Some h -> hashes st' !! id = Some h.
Proof.
  intros (_ & _ & Hold & _) Hinv Hh.
  pose proof (proj1 (registry_invariant_lookup st) Hinv id) as [_ Hlt].
  destruct (Hold id) as [_ ->]; [|exact Hh].
  assert (id < all_tokens st) by (apply Hlt; eauto). lia.
Qed.

(** What one call, failed or not, makes of the storage. *)
Lemma run_cases (e : env) (ep : entry_point) (st : storage) :
  registry_kept st (run keccak pack config e ep st)
  \/ exists n, minted keccak pack e st n (run keccak pack config e ep st).
Proof.
  unfold run, commit.
  destruct (call keccak pack config e ep st) as [[ops st']|err] eqn:Hcall;
    [|left; apply registry_kept_refl].
  simpl.
  destruct ep as [params|requests callback|params|p m|a|b| |amount|sc|b|d a];
    try (left; eapply call_kept; [|exact Hcall]; intros ?; discriminate).
  right. exists (Z.to_N amount). apply mint_ok_minted.
  simpl in Hcall. unfold no_operation in Hcall. bind_inv Hcall.
  injection Hcall as <- <-. exact Ha.
Qed.

Lemma run_invariant (e : env) (ep : entry_point) (st : storage) :
  registry_invariant st -> registry_invariant (run keccak pack config e ep st).
Proof.
  intros Hinv. destruct (run_cases e ep st) as [Hk|[n Hm]].
  - eapply registry_kept_invariant; eassumption.
  - eapply minted_invariant; eassumption.
Qed.

Lemma run_hashes (e : env) (ep : entry_point) (st : storage) (id : N)
    (h : list Byte.byte) :
  registry_invariant st -> hashes st !! id = Some h ->
  hashes (run keccak pack config e ep st) !! id = Some h.
Proof.
  intros Hinv Hh. destruct (run_cases e ep st) as [Hk|[n Hm]].
  - destruct Hk as (_ & -> & _). exact Hh.
  - eapply minted_hashes; eassumption.
Qed.

Lemma run_locked (e : env) (ep : entry_point) (st : storage) :
  locked st = true -> locked (run keccak pack config e ep st) = true.
Proof.
  intros Hl. destruct (run_cases e ep st) as [Hk|[n Hm]].
  - destruct Hk as (_ & _ & _ & Hk). auto.
  - destruct Hm as (_ & _ & _ & ->). exact Hl.
Qed.

Lemma run_trace_invariant (calls : list (env * entry_point)) :
  forall st, registry_invariant st ->
             registry_invariant (run_trace keccak pack config calls st).
Proof.
  induction calls as [|[e ep] calls IH]; intros st Hinv; simpl; [exact Hinv|].
  apply IH, run_invariant, Hinv.
Qed.

Lemma run_trace_hashes (calls : list (env * entry_point)) :
  forall st id h, registry_invariant st -> hashes st !! id = Some h ->
                  hashes (run_trace keccak pack config calls st) !! id = Some h.
Proof.
  induction calls as [|[e ep] calls IH]; intros st id h Hinv Hh; simpl;
    [exact Hh|].
  apply IH; [apply run_invariant, Hinv | apply run_hashes; assumption].
Qed.

Lemma run_trace_locked (calls : list (env * entry_point)) :
  forall st, locked st = true ->
             locked (run_trace keccak pack config calls st) = true.
Proof.
  induction calls as [|[e ep] calls IH]; intros st Hl; simpl; [exact Hl|].
  apply IH, run_locked, Hl.
Qed.

Lemma reachable_invariant (metadata : gmap string (list Byte.byte))
    (admin : string) (st : storage) :
  reachable keccak pack config metadata admin st -> registry_invariant st.
Proof.
  intros [calls ->]. apply run_trace_invariant, registry_invariant_init.
Qed.

(** C3.  In every reachable storage the [ledger] and the [hashes] have the
    same key set, the ids below [all_tokens].  Every call keeps it so, from
    any storage where it holds.  The commitment stored under an id stays
    what it is through every later trace of calls; a [transfer] writes the
    [ledger] and no other field. *)
Theorem registry_invariant_holds (metadata : gmap string (list Byte.byte))
    (admin : string) (st : storage) :
  reachable keccak pack config metadata admin st ->
  (dom (ledger st) =@{gset N} dom (hashes st)
   /\ dom (hashes st) =@{gset N} list_to_set (range 0 (all_tokens st)))
  /\ (forall st0 e ep, registry_invariant st0 ->
        registry_invariant (run keccak pack config e ep st0))
  /\ (forall calls id h, hashes st !! id = Some h ->
        hashes (run_trace keccak pack config calls st) !! id = Some h)
  /\ (forall e params st', transfer config e params st = Ok st' ->
        hashes st' = hashes st /\ st' = set_ledger (ledger st') st).
Proof.
  intros Hreach. pose proof (reachable_invariant _ _ _ Hreach) as Hinv. conjs.
  - apply Hinv.
  - apply Hinv.
  - intros st0 e ep. apply run_invariant.
  - intros calls id h. apply run_trace_hashes, Hinv.
  - intros e params st' Htr. apply transfer_kept in Htr as [(_ & Hh & _) Hf].
    split; assumption.
Qed.

(** ** The lock *)

(** C6.  [lock] succeeds for the administrator only, and once it has, the
    contract stays locked through every trace of calls: after it,
    [set_script] and [set_base_uri] fail with [FA2_LOCKED] for every
    caller. *)
Theorem lock_is_one_way (e : env) (st st1 : storage) :
  lock e st = Ok st1 ->
  sp_sender e = administrator st
  /\ forall calls,
       let st2 := run_trace keccak pack config calls st1 in
       locked st2 = true
       /\ (forall e' new_script,
             set_script e' new_script st2 = Failed (FAILWITH Error_message.locked))
       /\ (forall e' new_base_uri,
             set_base_uri e' new_base_uri st2 = Failed (FAILWITH Error_message.locked)).
Proof.
  intros Hlock. unfold lock, is_administrator in Hlock. bind_inv Hlock.
  apply bool_decide_eq_true_1 in Hv. injection Hlock as <-.
  split; [exact Hv|]. intros calls st2.
  assert (locked st2 = true) as Hl by (apply run_trace_locked; reflexivity).
  conjs; [exact Hl | |];
    intros e' x; unfold set_script, set_base_uri, is_locked; rewrite Hl;
    reflexivity.
Qed.

(** ** Transfers *)

Lemma sender_verify_authorized (e : env) (st : storage) (from_ : string)
    (token_id : N) :
  (if allow_self_transfer config
   then bool_decide (from_ = sp_sender e)
        || Operator_set.is_member (operators st) from_ (sp_sender e) token_id
        || bool_decide (sp_sender e = sp_self_address e)
   else bool_decide (from_ = sp_sender e)
        || Operator_set.is_member (operators st) from_ (sp_sender e) token_id)
  = true
  <-> authorized config e st from_ token_id.
Proof.
  unfold authorized, Operator_set.is_member.
  destruct (allow_self_transfer config);
    rewrite ?orb_true_iff, !bool_decide_eq_true; split; intros H.
  - destruct H as [[H|H]|H]; auto.
  - destruct H as [H|[H|[_ H]]]; auto.
  - destruct H as [H|H]; auto.
  - destruct H as [H|[H|[H _]]]; auto. discriminate.
Qed.

Lemma transfer_tx_unauthorized (e : env) (from_ : string)
    (tx : Batch_transfer.tx) (st : storage) :
  ~ authorized config e st from_ (Batch_transfer.token_id tx) ->
  transfer_tx config e from_ tx st = Failed (FAILWITH Error_message.not_operator).
Proof.
  intros Hna. unfold transfer_tx.
  rewrite verify_false; [reflexivity|].
  apply not_true_is_false. rewrite sender_verify_authorized. exact Hna.
Qed.

Lemma transfer_tx_undefined (e : env) (from_ : string)
    (tx : Batch_transfer.tx) (st : storage) :
  authorized config e st from_ (Batch_transfer.token_id tx) ->
  hashes st !! Batch_transfer.token_id tx = None ->
  transfer_tx config e from_ tx st = Failed (FAILWITH Error_message.token_undefined).
Proof.
  intros Ha Hnone. unfold transfer_tx.
  rewrite verify_true by (apply sender_verify_authorized; exact Ha). simpl.
  rewrite verify_false; [reflexivity|].
  apply not_true_is_false. rewrite contains_true, Hnone.
  intros [x Hx]. discriminate.
Qed.

(** Past the first two checks, what is left of a leg: the bound on the
    quantity, and for a quantity of one the check of the owner. *)
Lemma transfer_tx_checked (e : env) (from_ : string)
    (tx : Batch_transfer.tx) (st : storage) :
  authorized config e st from_ (Batch_transfer.token_id tx) ->
  is_Some (hashes st !! Batch_transfer.token_id tx) ->
  transfer_tx config e from_ tx st
  = (verify (Batch_transfer.amount tx <=? 1) Error_message.insufficient_balance ;;;
     if Batch_transfer.amount tx =? 1 then
       owner <- get_item (ledger st) (Batch_transfer.token_id tx) ;;
       verify (bool_decide (owner = from_)) Error_message.insufficient_balance ;;;
       Ok (set_ledger (<[Batch_transfer.token_id tx := Batch_transfer.to_ tx]>
                         (ledger st)) st)
     else Ok st).
Proof.
  intros Ha Hex. unfold transfer_tx.
  rewrite verify_true by (apply sender_verify_authorized; exact Ha). simpl.
  rewrite verify_true by (apply contains_true; exact Hex). reflexivity.
Qed.

Lemma transfer_tx_ok_checks (e : env) (from_ : string)
    (tx : Batch_transfer.tx) (st st' : storage) :
  transfer_tx config e from_ tx st = Ok st' ->
  authorized config e st from_ (Batch_transfer.token_id tx)
  /\ is_Some (hashes st !! Batch_transfer.token_id tx)
  /\ Batch_transfer.amount tx <= 1.
Proof.
  unfold transfer_tx. intros H. bind_inv H. conjs.
  - apply sender_verify_authorized. exact Hv.
  - apply contains_true. exact Hv0.
  - apply N.leb_le. exact Hv1.
Qed.

Lemma transfer_legs (e : env) (params : list Batch_transfer.transfer)
    (st : storage) :
  transfer config e params st = for_each (transfer_leg config e) (legs params) st.
Proof.
  unfold transfer, legs. revert st.
  induction params as [|tr params IH]; intros st; simpl; [reflexivity|].
  rewrite for_each_app.
  assert (forall l s, for_each (transfer_tx config e (Batch_transfer.from_ tr)) l s
                      = for_each (transfer_leg config e)
                          (map (pair (Batch_transfer.from_ tr)) l) s) as Hmap.
  { induction l as [|tx l IHl]; intros s; simpl; [reflexivity|].
    unfold transfer_leg at 1. simpl.
    destruct (transfer_tx config e (Batch_transfer.from_ tr) tx s); simpl;
      [apply IHl | reflexivity]. }
  rewrite Hmap.
  destruct (for_each (transfer_leg config e) _ st); simpl; [apply IH | reflexivity].
Qed.

(** C2, as amended.  [transfer] runs the legs of the batch one by one in
    input order.  A leg of quantity 1 succeeds exactly when the caller is
    authorised (the declared [from_], an operator of [from_] for the token,
    or with self-transfer enabled the contract itself), the token exists
    and its owner is [from_]; the token then goes to the leg's [to_] and
    nothing else changes.  A leg of quantity above 1 always fails: with
    [FA2_NOT_OPERATOR] when the caller is not authorised, else with
    [FA2_TOKEN_UNDEFINED] when the token does not exist, else with
    [FA2_INSUFFICIENT_BALANCE].  A leg of quantity 0 changes nothing.  When
    a leg fails, wherever it is in the batch, the call fails with that
    leg's error and the storage is as before the call, whatever the legs
    before it had done. *)
Theorem transfer_spec (e : env) (params : list Batch_transfer.transfer)
    (st : storage) :
  transfer config e params st = for_each (transfer_leg config e) (legs params) st
  /\ (forall from_ tx s, Batch_transfer.amount tx = 1 ->
        ((exists s', transfer_tx config e from_ tx s = Ok s')
         <-> authorized config e s from_ (Batch_transfer.token_id tx)
             /\ is_Some (hashes s !! Batch_transfer.token_id tx)
             /\ ledger s !! Batch_transfer.token_id tx = Some from_)
        /\ (forall s', transfer_tx config e from_ tx s = Ok s' ->
              s' = set_ledger (<[Batch_transfer.token_id tx := Batch_transfer.to_ tx]>
                                 (ledger s)) s))
  /\ (forall from_ tx s, 1 < Batch_transfer.amount tx ->
        (~ authorized config e s from_ (Batch_transfer.token_id tx) ->
           transfer_tx config e from_ tx s
           = Failed (FAILWITH Error_message.not_operator))
        /\ (authorized config e s from_ (Batch_transfer.token_id tx) ->
            hashes s !! Batch_transfer.token_id tx = None ->
            transfer_tx config e from_ tx s
            = Failed (FAILWITH Error_message.token_undefined))
        /\ (authorized config e s from_ (Batch_transfer.token_id tx) ->
            is_Some (hashes s !! Batch_transfer.token_id tx) ->
            transfer_tx config e from_ tx s
            = Failed (FAILWITH Error_message.insufficient_balance)))
  /\ (forall from_ tx s s', Batch_transfer.amount tx = 0 ->
        transfer_tx config e from_ tx s = Ok s' -> s' = s)
  /\ (forall before leg after s1 err,
        legs params = (before ++ leg :: after)%list ->
        for_each (transfer_leg config e) before st = Ok s1 ->
        transfer_leg config e leg s1 = Failed err ->
        transfer config e params st = Failed err
        /\ run keccak pack config e (Transfer params) st = st).
Proof.
  conjs.
  - apply transfer_legs.
  - intros from_ tx s Hone. split.
    + split.
      * intros [s' Hok]. pose proof (transfer_tx_ok_checks _ _ _ _ _ Hok)
          as (Ha & Hex & _).
        conjs; [exact Ha | exact Hex |].
        rewrite transfer_tx_checked in Hok by assumption.
        rewrite Hone in Hok. simpl in Hok. bind_inv Hok.
        apply get_item_ok in Ha0. apply bool_decide_eq_true_1 in Hv.
        congruence.
      * intros (Ha & Hex & Hown). eexists.
        rewrite transfer_tx_checked by assumption. rewrite Hone. simpl.
        apply get_item_ok in Hown. rewrite Hown. simpl.
        rewrite bool_decide_eq_true_2 by reflexivity. reflexivity.
    + intros s' Hok. pose proof (transfer_tx_ok_checks _ _ _ _ _ Hok)
        as (Ha & Hex & _).
      rewrite transfer_tx_checked in Hok by assumption.
      rewrite Hone in Hok. simpl in Hok. bind_inv Hok. congruence.
  - intros from_ tx s Hmany. conjs.
    + apply transfer_tx_unauthorized.
    + apply transfer_tx_undefined.
    + intros Ha Hex. rewrite transfer_tx_checked by assumption.
      rewrite verify_false by (apply N.leb_gt; exact Hmany). reflexivity.
  - intros from_ tx s s' Hzero Hok.
    pose proof (transfer_tx_ok_checks _ _ _ _ _ Hok) as (Ha & Hex & _).
    rewrite transfer_tx_checked in Hok by assumption.
    rewrite Hzero in Hok. simpl in Hok. congruence.
  - intros before leg after s1 err Hlegs Hbefore Hleg.
    assert (transfer config e params st = Failed err) as Hfail.
    { rewrite transfer_legs, Hlegs, for_each_app, Hbefore. simpl.
      rewrite Hleg. reflexivity. }
    split; [exact Hfail|].
    unfold run, call, no_operation. rewrite Hfail. reflexivity.
Qed.

(** ** Operators *)

Lemma set_operators_same (st : storage) : set_operators (operators st) st = st.
Proof. destruct st; reflexivity. Qed.

Lemma operator_set_remove_absent (set : gset Operator_set.key)
    (owner operator : string) (token_id : N) :
  Operator_set.make_key owner operator token_id ∉ set ->
  Operator_set.remove set owner operator token_id = set.
Proof.
intros Habs. unfold Operator_set.remove.
apply difference_disjoint_L, disjoint_singleton_r, Habs.
Qed.

Lemma operator_set_add_remove (set : gset Operator_set.key)
    (owner operator : string) (token_id : N) :
  Operator_set.remove (Operator_set.add set owner operator token_id)
    owner operator token_id
  = set ∖ {[ Operator_set.make_key owner operator token_id ]}.
Proof.
unfold Operator_set.remove, Operator_set.add.
rewrite difference_union_distr_l_L, difference_diag_L. apply (left_id_L ∅ (∪)).
Qed.

Lemma update_operators_add (e : env) (upd : Operator_param.t) (st : storage) :
  support_operator config = true ->
  Operator_param.owner upd = sp_sender e ->
  update_operators config e [add_operator upd] st
  = Ok (set_operators
          (Operator_set.add (operators st) (Operator_param.owner upd)
             (Operator_param.operator upd) (Operator_param.token_id upd)) st).
Proof.
  intros Hs Ho. unfold update_operators. rewrite Hs. simpl.
  rewrite bool_decide_eq_true_2 by assumption. reflexivity.
Qed.

Lemma update_operators_remove (e : env) (upd : Operator_param.t) (st : storage) :
  support_operator config = true ->
  Operator_param.owner upd = sp_sender e ->
  update_operators config e [remove_operator upd] st
  = Ok (set_operators
          (Operator_set.remove (operators st) (Operator_param.owner upd)
             (Operator_param.operator upd) (Operator_param.token_id upd)) st).
Proof.
  intros Hs Ho. unfold update_operators. rewrite Hs. simpl.
  rewrite bool_decide_eq_true_2 by assumption. reflexivity.
Qed.

(** C7, as amended.  Removing a triple that is not in the operator set
    leaves the set as it is, and a [remove_operator] of such a triple by
    its owner succeeds and leaves the storage as it is.  An [add_operator]
    followed by a [remove_operator] of the same triple, both by the owner,
    leaves the triple out of the set: the set is the one before the grant
    without that triple, so the grant and revoke restore it when the
    triple was absent before the grant, and only then. *)
Theorem operator_revoke_spec (e : env) (upd : Operator_param.t) (st : storage) :
  (operator_key upd ∉ operators st ->
     Operator_set.remove (operators st) (Operator_param.owner upd)
       (Operator_param.operator upd) (Operator_param.token_id upd)
     = operators st)
  /\ (support_operator config = true ->
      Operator_param.owner upd = sp_sender e ->
      operator_key upd ∉ operators st ->
      update_operators config e [remove_operator upd] st = Ok st)
  /\ (support_operator config = true ->
      Operator_param.owner upd = sp_sender e ->
      exists st1 st2,
        update_operators config e [add_operator upd] st = Ok st1
        /\ update_operators config e [remove_operator upd] st1 = Ok st2
        /\ update_operators config e [add_operator upd; remove_operator upd] st
           = Ok st2
        /\ operators st2 = operators st ∖ {[ operator_key upd ]}
        /\ is_operator st2 upd = false
        /\ (operator_key upd ∉ operators st -> st2 = st)
        /\ (is_operator st2 upd = is_operator st upd
            <-> operator_key upd ∉ operators st)).
Proof.
  conjs.
  - apply operator_set_remove_absent.
  - intros Hs Ho Habs. rewrite update_operators_remove by assumption.
    rewrite operator_set_remove_absent by exact Habs.
    rewrite set_operators_same. reflexivity.
  - intros Hs Ho.
    pose proof (update_operators_add e upd st Hs Ho) as Hadd.
    match type of Hadd with _ = Ok ?s => set (st1 := s) in * end.
    pose proof (update_operators_remove e upd st1 Hs Ho) as Hrem.
    match type of Hrem with _ = Ok ?s => set (st2 := s) in * end.
    assert (operators st2 = operators st ∖ {[ operator_key upd ]}) as Hops.
    { subst st2 st1. simpl. apply operator_set_add_remove. }
    assert (is_operator st2 upd = false) as Hmem.
    { unfold is_operator, Operator_set.is_member. fold (operator_key upd).
      rewrite Hops. apply bool_decide_eq_false_2.
  rewrite elem_of_difference, elem_of_singleton. tauto. }
    exists st1, st2. conjs.
    + exact Hadd.
    + exact Hrem.
    + unfold update_operators in *. rewrite Hs in *.
      change [add_operator upd; remove_operator upd]
        with ([add_operator upd] ++ [remove_operator upd])%list.
      rewrite for_each_app, Hadd. exact Hrem.
    + exact Hops.
    + exact Hmem.
    + intros Habs.
      assert (operators st2 = operators st) as Hsame
        by (rewrite Hops; apply difference_disjoint_L, disjoint_singleton_r, Habs).
      subst st2 st1. simpl in *.
      unfold set_operators at 1. simpl. rewrite Hsame.
      destruct st; reflexivity.
    + rewrite Hmem. unfold is_operator, Operator_set.is_member.
      fold (operator_key upd). split.
      * intros Heq. symmetry in Heq. apply bool_decide_eq_false_1 in Heq.
        exact Heq.
      * intros Habs. symmetry. apply bool_decide_eq_false_2. exact Habs.
Qed.

(** ** Views *)




End Properties.

(** * Scenarios *)

Example one_minted_registry :
  all_tokens one_minted = 1
  /\ ledger one_minted !! 0 = Some "alice"
  /\ ledger one_minted !! 1 = None
  /\ is_Some (hashes one_minted !! 0).
Proof. vm_compute. conjs; eauto. Qed.

(** Scenario A: a [mint] that underpays fails with [FA2_BAD_VALUE]. *)
Example mint_underpaid :
  mint test_keccak test_pack (call_by "alice" 999999) 1 origin
  = Failed (FAILWITH Error_message.bad_value).
Proof. reflexivity. Qed.

(** Scenario B: Bob, operator of Alice for token 0, moves it to Carol. *)
Example operator_transfer :
  exists st',
    transfer default_config (call_by "bob" 0)
      [ {| Batch_transfer.from_ := "alice";
           Batch_transfer.txs :=
             [ {| Batch_transfer.to_ := "carol";
                  Batch_transfer.token_id := 0;
                  Batch_transfer.amount := 1 |} ] |} ] granted = Ok st'
    /\ get_balance st' {| Balance_of.owner := "carol"; Balance_of.token_id := 0 |}
       = Ok 1
    /\ get_balance st' {| Balance_of.owner := "alice"; Balance_of.token_id := 0 |}
       = Ok 0.
Proof. eexists. vm_compute. conjs; reflexivity. Qed.

(** Scenario C: no [mint] past [max_editions]. *)
Example mint_past_max_editions :
  mint test_keccak test_pack (call_by "alice" 1000000) 1 two_minted
  = Failed (FAILWITH Error_message.max_editions_reached)
  /\ all_tokens (test_run [(call_by "alice" 1000000, Mint 1)] two_minted) = 2.
Proof. vm_compute. split; reflexivity. Qed.

(** Scenario D: [set_mint_parameters] at [all_tokens] 0, 1 and 2. *)
Example set_mint_parameters_boundary :
  is_ok (set_mint_parameters (call_by "admin" 0) 5 10 origin) = true
  /\ is_ok (set_mint_parameters (call_by "admin" 0) 5 10 one_minted) = true
  /\ set_mint_parameters (call_by "admin" 0) 5 10 two_minted
     = Failed (FAILWITH Error_message.sale_started).
Proof. vm_compute. conjs; reflexivity. Qed.

(** Scenario E: a batch with a valid leg and then an unauthorised one fails,
    and the valid leg is not kept. *)
Example transfer_batch_reverts :
  let params :=
    [ {| Batch_transfer.from_ := "alice";
         Batch_transfer.txs :=
           [ {| Batch_transfer.to_ := "bob";
                Batch_transfer.token_id := 0;
                Batch_transfer.amount := 1 |} ] |};
      {| Batch_transfer.from_ := "bob";
         Batch_transfer.txs :=
           [ {| Batch_transfer.to_ := "alice";
                Batch_transfer.token_id := 0;
                Batch_transfer.amount := 1 |} ] |} ] in
  transfer default_config (call_by "alice" 0) params one_minted
  = Failed (FAILWITH Error_message.not_operator)
  /\ ledger (test_run [(call_by "alice" 0, Transfer params)] one_minted) !! 0
     = Some "alice".
Proof. vm_compute. split; reflexivity. Qed.

(** ** Where the statements have to be read with care *)

(** C2.  A leg of quantity 2 sent by Bob, who is neither Alice nor her
    operator, fails with [FA2_NOT_OPERATOR]: the check of the caller comes
    before the bound on the quantity, so not every leg of quantity above 1
    fails with [FA2_INSUFFICIENT_BALANCE]. *)
Lemma transfer_quantity_two_not_operator :
  1 < Batch_transfer.amount two_of_token_0_to_bob
  /\ transfer_tx default_config (call_by "bob" 0) "alice" two_of_token_0_to_bob
       one_minted
     = Failed (FAILWITH Error_message.not_operator)
  /\ transfer_tx default_config (call_by "bob" 0) "alice" two_of_token_0_to_bob
       one_minted
     <> Failed (FAILWITH Error_message.insufficient_balance).
Proof. vm_compute. conjs; (reflexivity || discriminate). Qed.


(** C7.  Bob is already an operator of Alice for token 0.  Alice grants it
    again and revokes it: Bob is no operator any more, which is not what he
    was before the grant. *)
Lemma regrant_then_revoke_removes :
  is_operator granted bob_is_operator = true
  /\ is_operator
       (test_run
          [ (call_by "alice" 0, Update_operators [add_operator bob_is_operator]);
            (call_by "alice" 0, Update_operators [remove_operator bob_is_operator]) ]
          granted)
       bob_is_operator
     = false.
Proof. vm_compute. split; reflexivity. Qed.


(** C9.  Bob is not the administrator: his [mutez_transfer] fails, but not
    with [FA2_NOT_ADMIN].  And the administrator's [mutez_transfer] of one
    mutez, which the balance covers, to the contract's own address fails
    too, as that address takes no [unit]: nothing is sent. *)
Lemma mutez_transfer_unnamed_or_unsent :
  (sp_sender (call_by "bob" 0) <> administrator origin
   /\ mutez_transfer (call_by "bob" 0) "bob" 1 origin = Failed WrongCondition
   /\ mutez_transfer (call_by "bob" 0) "bob" 1 origin
      <> Failed (FAILWITH Error_message.not_admin))
  /\ (sp_sender (call_by "admin" 0) = administrator origin
      /\ 1 <= sp_balance (call_by "admin" 0)
      /\ mutez_transfer (call_by "admin" 0) "KT1_FA2" 1 origin
         = Failed OpenSomeOnNone).
Proof. vm_compute. conjs; (reflexivity || discriminate). Qed.

(** ** The theorems at work *)


Lemma transfer_spec_witness :
  transfer default_config (call_by "carol" 0)
    [ {| Batch_transfer.from_ := "alice";
         Batch_transfer.txs := [two_of_token_0_to_bob] |} ] granted
  = Failed (FAILWITH Error_message.not_operator).
Proof.
  destruct (transfer_spec test_keccak test_pack default_config (call_by "carol" 0)
              [ {| Batch_transfer.from_ := "alice";
                   Batch_transfer.txs := [two_of_token_0_to_bob] |} ] granted)
    as (_ & _ & Hmany & _ & Hfail).
  apply (Hfail [] ("alice", two_of_token_0_to_bob) [] granted).
  - reflexivity.
  - reflexivity.
  - apply Hmany.
    + vm_compute. reflexivity.
    + vm_compute. intros [H|[H|[H _]]]; discriminate H.
Defined.

Lemma registry_invariant_holds_witness :
  dom (ledger two_minted) =@{gset N} dom (hashes two_minted)
  /\ dom (hashes two_minted) =@{gset N} list_to_set (range 0 (all_tokens two_minted)).
Proof.
  destruct (registry_invariant_holds test_keccak test_pack default_config
              {[ EmptyString := String.list_byte_of_string "https://example.com" ]} "admin"
              two_minted) as [Hdom _].
  - exists [(call_by "alice" 1000000, Mint 1); (call_by "alice" 1000000, Mint 1)].
    reflexivity.
  - exact Hdom.
Defined.


Lemma set_mint_parameters_spec_witness :
  set_mint_parameters (call_by "admin" 0) 5 10 two_minted
  = Failed (FAILWITH Error_message.sale_started).
Proof.
  apply (set_mint_parameters_spec (call_by "admin" 0) 5 10 two_minted).
  - reflexivity.
  - vm_compute. reflexivity.
Defined.

Lemma lock_is_one_way_witness :
  set_script (call_by "admin" 0) "draw()"
    (test_run [(call_by "admin" 0, Set_pause true)] (set_locked true origin))
  = Failed (FAILWITH Error_message.locked).
Proof.
  apply (lock_is_one_way test_keccak test_pack default_config
           (call_by "admin" 0) origin (set_locked true origin)).
  reflexivity.
Defined.

Lemma operator_revoke_spec_witness :
  update_operators default_config (call_by "alice" 0)
    [remove_operator bob_is_operator] one_minted
  = Ok one_minted.
Proof.
  apply (operator_revoke_spec default_config (call_by "alice" 0)
           bob_is_operator one_minted).
  - reflexivity.
  - reflexivity.
  - vm_compute. intros H. discriminate H.
Defined.

Lemma mutez_transfer_spec_witness :
  mutez_transfer (call_by "admin" 0) "admin" 5000000 origin
  = Ok [Send "admin" 5000000].
Proof.
  apply (mutez_transfer_spec test_keccak test_pack default_config
           (call_by "admin" 0) "admin" 5000000 origin).
  - reflexivity.
  - vm_compute. discriminate.
  - reflexivity.
Defined.


Lemma locked_checked_before_admin_witness :
  locked (set_locked true origin) = true
  /\ set_script (call_by "bob" 0) "draw()" (set_locked true origin)
     = Failed (FAILWITH Error_message.locked).
Proof.
  split; [reflexivity|].
  apply (locked_checked_before_admin (call_by "bob" 0) (set_locked true origin)
           "draw()" []).
  reflexivity.
Defined.

(** * Further properties of the code *)

(** ** [bytes_of_nat] and [token_metadata] *)

Lemma digit_bytes_lookup (d : N) :
  d < 10 ->
  get_item digit_bytes d = Ok [Ascii.byte_of_ascii (pretty_N_char d)].
Proof.
  intros Hd.
  assert (d = 0 \/ d = 1 \/ d = 2 \/ d = 3 \/ d = 4 \/ d = 5 \/ d = 6 \/ d = 7
          \/ d = 8 \/ d = 9) as Hcases by lia.
  repeat (destruct Hcases as [->|Hcases]; [vm_compute; reflexivity|]).
  subst d. vm_compute. reflexivity.
Qed.

Lemma bytes_of_nat_while_digits (x : N) :
  forall (res : list (list Byte.byte)) (s : string),
    concat res = String.list_byte_of_string s ->
    exists res',
      bytes_of_nat_while (N.size_nat x) x res = Ok res'
      /\ concat res' = String.list_byte_of_string (pretty_N_go x s).
Proof.
  induction (N.lt_wf_0 x) as [x _ IH]. intros res s Hres.
  rewrite bytes_of_nat_while_eq.
  destruct (0 <? x) eqn:Hx.
  - apply N.ltb_lt in Hx.
    rewrite digit_bytes_lookup by (apply N.mod_lt; lia). cbn [bind].
    rewrite pretty_N_go_step by exact Hx.
    apply IH.
    + apply N.div_lt; lia.
    + simpl. rewrite Hres. reflexivity.
  - apply N.ltb_ge in Hx. assert (x = 0) as -> by lia.
    exists res. split; [reflexivity|]. rewrite pretty_N_go_0. exact Hres.
Qed.

Lemma bytes_of_nat_decimal (n : N) : bytes_of_nat n = Ok (decimal n).
Proof.
  unfold bytes_of_nat, decimal, pretty, pretty_N.
  destruct (n =? 0) eqn:Hn.
  - apply N.eqb_eq in Hn. subst n. vm_compute. reflexivity.
  - apply N.eqb_neq in Hn. cbn [bind].
    destruct (bytes_of_nat_while_digits n [] EmptyString eq_refl)
      as (res' & -> & Hres').
    cbn [bind]. rewrite Hres'.
    destruct (decide (n = 0)); [contradiction | reflexivity].
Qed.

Lemma decimal_inj (n m : N) : decimal n = decimal m -> n = m.
Proof.
  unfold decimal. intros Heq.
  apply (f_equal String.string_of_list_byte) in Heq.
  rewrite !String.string_of_list_byte_of_string in Heq.
  apply (inj pretty) in Heq. exact Heq.
Qed.

(** X1.  [bytes_of_nat] never fails; it gives the decimal digits of its
    argument, most significant first, and the single digit 0 for 0; two
    numbers with the same bytes are the same number. *)
Theorem bytes_of_nat_spec (n : N) :
  bytes_of_nat n = Ok (String.list_byte_of_string (pretty n))
  /\ (n = 0 -> bytes_of_nat n = Ok [Byte.x30])
  /\ (forall m, bytes_of_nat n = bytes_of_nat m -> n = m).
Proof.
  conjs.
  - apply bytes_of_nat_decimal.
  - intros ->. reflexivity.
  - intros m. rewrite !bytes_of_nat_decimal. intros Heq.
    injection Heq as Heq. apply decimal_inj, Heq.
Qed.

Section Further.

Variable keccak : list Byte.byte -> list Byte.byte.
Variable pack : Mint_record.t -> list Byte.byte.
Variable config : FA2_config.

(** What a successful call was, entry point by entry point. *)
Lemma call_ok_cases (e : env) (ep : entry_point) (ops : list operation)
    (st st' : storage) :
  call keccak pack config e ep st = Ok (ops, st') ->
  match ep with
  | Transfer params => transfer config e params st = Ok st'
  | Balance_of_call _ _ => st' = st
  | Update_operators params => update_operators config e params st = Ok st'
  | Set_mint_parameters p m =>
      sp_sender e = administrator st /\ all_tokens st <= 1 /\ all_tokens st <= m
      /\ st' = set_price p (set_max_editions m st)
  | Set_administrator a =>
      sp_sender e = administrator st /\ st' = set_administrator_field a st
  | Set_pause b => sp_sender e = administrator st /\ st' = set_paused b st
  | Lock => sp_sender e = administrator st /\ st' = set_locked true st
  | Mint amount => mint keccak pack e amount st = Ok st'
  | Set_script sc =>
      locked st = false /\ sp_sender e = administrator st
      /\ st' = set_script_field sc st
  | Set_base_uri b =>
      locked st = false /\ sp_sender e = administrator st
      /\ st' = set_base_uri_field b st
  | Transfer_mutez _ _ => st' = st
  end.
Proof.
  intros H.
  destruct ep; simpl in H; unfold no_operation, keep_storage in H;
    bind_inv H; injection H as <- <-; try reflexivity; try exact Ha.
  - unfold set_mint_parameters, is_administrator in Ha. bind_inv Ha.
    injection Ha as <-. apply bool_decide_eq_true_1 in Hv.
    apply N.leb_le in Hv0. apply N.leb_le in Hv1. conjs; (assumption || reflexivity).
  - unfold set_administrator, is_administrator in Ha. bind_inv Ha.
    injection Ha as <-. apply bool_decide_eq_true_1 in Hv. split; [assumption | reflexivity].
  - unfold set_pause, is_administrator in Ha. bind_inv Ha.
    injection Ha as <-. apply bool_decide_eq_true_1 in Hv. split; [assumption | reflexivity].
  - unfold lock, is_administrator in Ha. bind_inv Ha.
    injection Ha as <-. apply bool_decide_eq_true_1 in Hv. split; [assumption | reflexivity].
  - unfold set_script, is_administrator, is_locked in Ha. bind_inv Ha.
    injection Ha as <-. apply bool_decide_eq_true_1 in Hv0.
    apply negb_true_iff in Hv. conjs; (assumption || reflexivity).
  - unfold set_base_uri, is_administrator, is_locked in Ha. bind_inv Ha.
    injection Ha as <-. apply bool_decide_eq_true_1 in Hv0.
    apply negb_true_iff in Hv. conjs; (assumption || reflexivity).
Qed.

(** A relation that every call establishes, failed or not, holds along
    every trace. *)
Lemma run_trace_rel (R : storage -> storage -> Prop) :
  (forall st, R st st) ->
  (forall st1 st2 st3, R st1 st2 -> R st2 st3 -> R st1 st3) ->
  (forall e ep st, R st (run keccak pack config e ep st)) ->
  forall calls st, R st (run_trace keccak pack config calls st).
Proof.
  intros Hrefl Htrans Hrun calls.
  induction calls as [|[e ep] calls IH]; intros st; simpl; [apply Hrefl|].
  eapply Htrans; [apply Hrun | apply IH].
Qed.

Lemma mint_ok_pre (e : env) (amount : Z) (st st' : storage) :
  mint keccak pack e amount st = Ok st' ->
  (0 < amount)%Z /\ paused st = false
  /\ sp_amount e = price st * Z.to_N amount
  /\ all_tokens st + Z.to_N amount <= max_editions st.
Proof.
  intros H. unfold mint, is_paused in H. bind_inv H.
  apply Z.ltb_lt in Hv. apply negb_true_iff in Hv0.
  unfold as_nat in Ha.
  destruct (0 <=? amount)%Z; [injection Ha as <- | discriminate].
  apply mutez_mul_inv in Ha0 as [-> _].
  apply N.eqb_eq in Hv1. apply N.leb_le in Hv2. conjs; assumption.
Qed.


(** ** Minting *)






(** ** What stays as it is *)

Lemma run_governance (e : env) (ep : entry_point) (st : storage) :
  (sp_sender e <> administrator st ->
     governance (run keccak pack config e ep st) = governance st)
  /\ (locked st = true ->
      script (run keccak pack config e ep st) = script st
      /\ base_uri (run keccak pack config e ep st) = base_uri st)
  /\ (2 <= all_tokens st ->
      price (run keccak pack config e ep st) = price st
      /\ max_editions (run keccak pack config e ep st) = max_editions st).
Proof.
  unfold run, commit.
  destruct (call keccak pack config e ep st) as [[ops st']|err] eqn:Hcall;
    simpl; [|conjs; intros; try split; reflexivity].
  apply call_ok_cases in Hcall.
  destruct ep.
  - apply transfer_kept in Hcall as [_ Hf]. rewrite Hf.
    conjs; intros; try split; reflexivity.
  - subst st'. conjs; intros; try split; reflexivity.
  - apply update_operators_kept in Hcall. rewrite Hcall.
    conjs; intros; try split; reflexivity.
  - destruct Hcall as (Had & Hle & _ & ->).
    conjs; intros; try split; try reflexivity; try contradiction; lia.
  - destruct Hcall as (Had & ->).
    conjs; intros; try split; try reflexivity; contradiction.
  - destruct Hcall as (Had & ->).
    conjs; intros; try split; try reflexivity; contradiction.
  - destruct Hcall as (Had & ->).
    conjs; intros; try split; try reflexivity; contradiction.
  - apply mint_ok_minted in Hcall as (_ & _ & _ & Hf). rewrite Hf.
    conjs; intros; try split; reflexivity.
  - destruct Hcall as (Hl & Had & ->).
    conjs; intros; try split; try reflexivity; try contradiction; congruence.
  - destruct Hcall as (Hl & Had & ->).
    conjs; intros; try split; try reflexivity; try contradiction; congruence.
  - subst st'. conjs; intros; try split; reflexivity.
Qed.

(** The counter never goes down, and an id that has an owner or a
    commitment keeps having one. *)
Lemma run_grows (e : env) (ep : entry_point) (st : storage) :
  all_tokens st <= all_tokens (run keccak pack config e ep st)
  /\ (forall id, is_Some (ledger st !! id) ->
        is_Some (ledger (run keccak pack config e ep st) !! id))
  /\ (forall id, is_Some (hashes st !! id) ->
        is_Some (hashes (run keccak pack config e ep st) !! id)).
Proof.
  destruct (run_cases keccak pack config e ep st) as [Hk|[n Hm]].
  - destruct Hk as (Hl & Hh & Ha & _). rewrite Hh, Ha. conjs.
    + lia.
    + intros id. apply Hl.
    + intros id Hid. exact Hid.
  - destruct Hm as (Ha & Hnew & Hold & _). rewrite Ha. conjs.
    + lia.
    + intros id Hid.
      destruct (decide (all_tokens st <= id < all_tokens st + n)) as [Hin|Hout].
      * destruct (Hnew id Hin) as [-> _]. eauto.
      * destruct (Hold id Hout) as [-> _]. exact Hid.
    + intros id Hid.
      destruct (decide (all_tokens st <= id < all_tokens st + n)) as [Hin|Hout].
      * destruct (Hnew id Hin) as [_ ->]. eauto.
      * destruct (Hold id Hout) as [_ ->]. exact Hid.
Qed.

(** X6.  A call whose sender is not the administrator leaves the
    administrator, the pause and lock flags, the price, the ceiling, the
    script and the base URI as they are, whichever entry point it calls and
    whether it fails or not. *)
Theorem non_admin_cannot_govern (e : env) (ep : entry_point) (st : storage) :
  sp_sender e <> administrator st ->
  governance (run keccak pack config e ep st) = governance st.
Proof. apply run_governance. Qed.

(** X8.  On a locked contract the script and the base URI are final: no
    trace of calls changes them, and the contract stays locked. *)
Theorem locked_freezes_script_and_base_uri (calls : list (env * entry_point))
    (st : storage) :
  locked st = true ->
  locked (run_trace keccak pack config calls st) = true
  /\ script (run_trace keccak pack config calls st) = script st
  /\ base_uri (run_trace keccak pack config calls st) = base_uri st.
Proof.
  revert calls st.
  apply (run_trace_rel
           (fun st st' => locked st = true ->
                          locked st' = true /\ script st' = script st
                          /\ base_uri st' = base_uri st)).
  - intros st Hl. conjs; (assumption || reflexivity).
  - intros st1 st2 st3 H12 H23 Hl.
    destruct (H12 Hl) as (Hl2 & Hs2 & Hb2).
    destruct (H23 Hl2) as (Hl3 & Hs3 & Hb3).
    conjs; congruence.
  - intros e ep st Hl.
    destruct (run_governance e ep st) as (_ & Hfrozen & _).
    destruct (Hfrozen Hl) as [Hs Hb].
    conjs; [apply run_locked; exact Hl | exact Hs | exact Hb].
Qed.

(** X9.  Once two tokens are minted the price and the ceiling are final: no
    trace of calls changes [price] or [max_editions]. *)
Theorem sale_started_freezes_mint_parameters (calls : list (env * entry_point))
    (st : storage) :
  2 <= all_tokens st ->
  price (run_trace keccak pack config calls st) = price st
  /\ max_editions (run_trace keccak pack config calls st) = max_editions st.
Proof.
  intros Hsale.
  assert (2 <= all_tokens (run_trace keccak pack config calls st)
          /\ price (run_trace keccak pack config calls st) = price st
          /\ max_editions (run_trace keccak pack config calls st) = max_editions st)
    as (_ & Hp & Hm); [|split; assumption].
  revert calls st Hsale.
  apply (run_trace_rel
           (fun st st' => 2 <= all_tokens st ->
                          2 <= all_tokens st' /\ price st' = price st
                          /\ max_editions st' = max_editions st)).
  - intros st H. conjs; (assumption || reflexivity).
  - intros st1 st2 st3 H12 H23 H.
    destruct (H12 H) as (H2 & Hp2 & Hm2).
    destruct (H23 H2) as (H3 & Hp3 & Hm3).
    conjs; [assumption | congruence | congruence].
  - intros e ep st H.
    destruct (run_governance e ep st) as (_ & _ & Hfrozen).
    destruct (Hfrozen H) as [Hp Hm].
    destruct (run_grows e ep st) as (Hle & _).
    conjs; [lia | exact Hp | exact Hm].
Qed.

(** X10.  Nothing is ever burned: along every trace of calls, from any
    storage, [all_tokens] does not decrease, and an id that has an owner or
    a commitment still has one. *)
Theorem tokens_never_burned (calls : list (env * entry_point)) (st : storage) :
  all_tokens st <= all_tokens (run_trace keccak pack config calls st)
  /\ (forall id, is_Some (ledger st !! id) ->
        is_Some (ledger (run_trace keccak pack config calls st) !! id))
  /\ (forall id, is_Some (hashes st !! id) ->
        is_Some (hashes (run_trace keccak pack config calls st) !! id)).
Proof.
  revert calls st.
  apply (run_trace_rel
           (fun st st' =>
              all_tokens st <= all_tokens st'
              /\ (forall id, is_Some (ledger st !! id) -> is_Some (ledger st' !! id))
              /\ (forall id, is_Some (hashes st !! id) -> is_Some (hashes st' !! id)))).
  - intros st. conjs; [lia | auto | auto].
  - intros st1 st2 st3 (Ha & Hl & Hh) (Ha' & Hl' & Hh').
    conjs; [lia | auto | auto].
  - intros e ep st. apply run_grows.
Qed.

(** X3.  The ceiling holds: in every reachable storage [all_tokens] is at
    most [max_editions]. *)
Theorem supply_never_exceeds_max_editions
    (metadata : gmap string (list Byte.byte)) (admin : string) (st : storage) :
  reachable keccak pack config metadata admin st ->
  all_tokens st <= max_editions st.
Proof.
  intros [calls ->].
  assert (all_tokens (init config metadata admin)
          <= max_editions (init config metadata admin)) as Hinit.
  { simpl. unfold Token_id_set.empty. lia. }
  revert Hinit. generalize (init config metadata admin). revert calls.
  apply (run_trace_rel
           (fun st st' => all_tokens st <= max_editions st ->
                          all_tokens st' <= max_editions st')).
  - auto.
  - auto.
  - intros e ep st Hcap. unfold run, commit.
    destruct (call keccak pack config e ep st) as [[ops st']|err] eqn:Hcall;
      simpl; [|exact Hcap].
    apply call_ok_cases in Hcall. destruct ep.
    + apply transfer_kept in Hcall as [_ Hf]. rewrite Hf. exact Hcap.
    + subst st'. exact Hcap.
    + apply update_operators_kept in Hcall. rewrite Hcall. exact Hcap.
    + destruct Hcall as (_ & _ & Hle & ->). simpl. exact Hle.
    + destruct Hcall as (_ & ->). exact Hcap.
    + destruct Hcall as (_ & ->). exact Hcap.
    + destruct Hcall as (_ & ->). exact Hcap.
    + pose proof (mint_ok_pre _ _ _ _ Hcall) as (_ & _ & _ & Hroom).
      apply mint_ok_minted in Hcall as (Ha & _ & _ & Hf).
      rewrite Ha. rewrite Hf. simpl. exact Hroom.
    + destruct Hcall as (_ & _ & ->). exact Hcap.
    + destruct Hcall as (_ & _ & ->). exact Hcap.
    + subst st'. exact Hcap.
Qed.

(** ** Token metadata *)

(** X2.  In a reachable storage [token_metadata] succeeds for every minted
    id.  Its map has the token's commitment under ["token_hash"], the base
    URI followed by the decimal digits of the id under the empty key, and
    the fixed name, symbol and decimals; two different ids never get the
    same URI. *)
Theorem token_metadata_of_minted (metadata : gmap string (list Byte.byte))
    (admin : string) (st : storage) (id : N) :
  reachable keccak pack config metadata admin st ->
  id < all_tokens st ->
  exists h v,
    hashes st !! id = Some h
    /\ token_metadata st id = Ok v
    /\ tm_token_id v = id
    /\ tm_token_info v !! "token_hash" = Some h
    /\ tm_token_info v !! EmptyString = Some (base_uri st ++ decimal id)%list
    /\ tm_token_info v !! "name" = Some (String.list_byte_of_string "Blocks on Blocks")
    /\ tm_token_info v !! "symbol" = Some (String.list_byte_of_string "BOB")
    /\ tm_token_info v !! "decimals" = Some (String.list_byte_of_string "0")
    /\ (forall id', (base_uri st ++ decimal id)%list = (base_uri st ++ decimal id')%list ->
          id = id').
Proof.
  intros Hreach Hlt. apply reachable_invariant in Hreach.
  pose proof (proj1 (registry_invariant_lookup st) Hreach id) as [_ Hh].
  destruct (proj2 Hh Hlt) as [h Hhash].
  exists h. eexists. split; [exact Hhash|]. split.
  - unfold token_metadata.
    rewrite verify_true by (apply N.ltb_lt; exact Hlt). cbn [bind].
    rewrite (proj2 (get_item_ok _ _ _) Hhash). cbn [bind].
    rewrite bytes_of_nat_decimal. cbn [bind]. reflexivity.
  - cbn [tm_token_id tm_token_info]. conjs; try reflexivity.
    intros id' Heq. apply app_inv_head in Heq. apply decimal_inj, Heq.
Qed.

(** ** The administrator *)

(** X7.  When the administrator hands over to another address, the calls of
    the old administrator to the administrator's entry points fail from
    then on, and those of the new one go through. *)
Theorem administrator_handover (e e_old e_new : env) (new : string) (st : storage) :
  sp_sender e = administrator st ->
  sp_sender e_old = administrator st ->
  sp_sender e_new = new ->
  new <> administrator st ->
  exists st',
    set_administrator e new st = Ok st'
    /\ administrator st' = new
    /\ (forall a, set_administrator e_old a st' = Failed (FAILWITH Error_message.not_admin))
    /\ (forall b, set_pause e_old b st' = Failed (FAILWITH Error_message.not_admin))
    /\ lock e_old st' = Failed (FAILWITH Error_message.not_admin)
    /\ (forall p m, set_mint_parameters e_old p m st'
                    = Failed (FAILWITH Error_message.not_admin))
    /\ (forall d a, mutez_transfer e_old d a st' = Failed WrongCondition)
    /\ (forall b, set_pause e_new b st' = Ok (set_paused b st'))
    /\ lock e_new st' = Ok (set_locked true st')
    /\ (forall a, set_administrator e_new a st' = Ok (set_administrator_field a st')).
Proof.
  intros He Hold Hnew Hne.
  exists (set_administrator_field new st).
  unfold set_administrator, set_pause, lock, set_mint_parameters, mutez_transfer,
    is_administrator.
  cbn [administrator set_administrator_field].
  rewrite (bool_decide_eq_true_2 _ He).
  rewrite (bool_decide_eq_true_2 (sp_sender e_new = new) Hnew).
  assert (sp_sender e_old <> new) as Hold' by congruence.
  rewrite (bool_decide_eq_false_2 _ Hold').
  conjs; intros; reflexivity.
Qed.

(** ** Transfers *)

Lemma for_each_commute {A} (body : A -> storage -> result storage)
    (f : storage -> storage) :
  (forall x st, body x (f st) = (st' <- body x st ;; Ok (f st'))) ->
  forall l st, for_each body l (f st) = (st' <- for_each body l st ;; Ok (f st')).
Proof.
  intros Hbody l. induction l as [|x l IH]; intros st; simpl; [reflexivity|].
  rewrite Hbody. destruct (body x st) as [st1|err]; simpl; [apply IH | reflexivity].
Qed.

Lemma transfer_tx_paused (e : env) (from_ : string) (tx : Batch_transfer.tx)
    (b : bool) (st : storage) :
  transfer_tx config e from_ tx (set_paused b st)
  = (st' <- transfer_tx config e from_ tx st ;; Ok (set_paused b st')).
Proof.
  unfold transfer_tx. cbn [operators hashes ledger set_paused].
  destruct (verify _ Error_message.not_operator); [|reflexivity]. cbn [bind].
  destruct (verify _ Error_message.token_undefined); [|reflexivity]. cbn [bind].
  destruct (verify _ Error_message.insufficient_balance); [|reflexivity].
  cbn [bind].
  destruct (Batch_transfer.amount tx =? 1); [|reflexivity].
  destruct (get_item (ledger st) (Batch_transfer.token_id tx)); [|reflexivity].
  cbn [bind].
  destruct (verify _ Error_message.insufficient_balance); reflexivity.
Qed.

(** X11.  The pause flag does not act on transfers: [transfer] does on a
    storage with the flag set to [b] what it does on the storage itself, and
    fails with the same error when it fails. *)
Theorem transfer_ignores_pause (e : env) (params : list Batch_transfer.transfer)
    (b : bool) (st : storage) :
  transfer config e params (set_paused b st)
  = (st' <- transfer config e params st ;; Ok (set_paused b st')).
Proof.
  unfold transfer. apply for_each_commute.
  intros tr st0. apply for_each_commute.
  intros tx st1. apply transfer_tx_paused.
Qed.

Lemma transfer_owner (e : env) (params : list Batch_transfer.transfer)
    (st st' : storage) :
  transfer config e params st = Ok st' ->
  forall id o, ledger st !! id = Some o ->
               ledger st' !! id = Some o \/ authorized config e st o id.
Proof.
  intros H.
  assert (operators st' = operators st
          /\ forall id o, ledger st !! id = Some o ->
                          ledger st' !! id = Some o \/ authorized config e st o id)
    as [_ Hres]; [|exact Hres].
  revert st st' H. unfold transfer.
  set (R := fun st st' : storage =>
              operators st' = operators st
              /\ forall id o, ledger st !! id = Some o ->
                              ledger st' !! id = Some o
                              \/ authorized config e st o id).
  assert (forall st, R st st) as Hrefl by (intros st; split; auto).
  assert (forall st1 st2 st3, R st1 st2 -> R st2 st3 -> R st1 st3) as Htrans.
  { intros st1 st2 st3 [Ho1 H1] [Ho2 H2]. split; [congruence|].
    intros id o Hid. destruct (H1 id o Hid) as [Hsame|Hauth]; [|auto].
    destruct (H2 id o Hsame) as [Hsame'|Hauth]; [auto|].
    right. unfold authorized in *. rewrite <- Ho1. exact Hauth. }
  apply (for_each_rel R); [exact Hrefl | exact Htrans |].
  intros tr. apply (for_each_rel R); [exact Hrefl | exact Htrans |].
  intros tx st st' Hleg.
  pose proof (transfer_tx_ok_checks _ _ _ _ _ _ Hleg) as (Hauth & _ & _).
  apply transfer_tx_ok in Hleg as [->|[Hown ->]]; [apply Hrefl|].
  split; [reflexivity|]. intros id o Hid. cbn [ledger set_ledger].
  destruct (decide (id = Batch_transfer.token_id tx)) as [->|Hne].
  - right. assert (o = Batch_transfer.from_ tr) as -> by congruence. exact Hauth.
  - left. rewrite lookup_insert_ne by congruence. exact Hid.
Qed.

(** X12.  A token changes hands only with its owner's say: if a call on a
    reachable storage leaves token [id] with another owner than [o], who
    had it, the call is a [transfer] and its sender is [o], or an operator
    of [o] for [id], or with self-transfer enabled the contract itself. *)
Theorem owner_changes_only_when_authorized
    (metadata : gmap string (list Byte.byte)) (admin : string) (st : storage)
    (e : env) (ep : entry_point) (id : N) (o : string) :
  reachable keccak pack config metadata admin st ->
  ledger st !! id = Some o ->
  ledger (run keccak pack config e ep st) !! id <> Some o ->
  (exists params, ep = Transfer params) /\ authorized config e st o id.
Proof.
  intros Hreach Hown Hchanged. apply reachable_invariant in Hreach.
  unfold run, commit in Hchanged.
  destruct (call keccak pack config e ep st) as [[ops st']|err] eqn:Hcall;
    simpl in Hchanged; [|contradiction].
  apply call_ok_cases in Hcall. destruct ep.
  - split; [eauto|].
    destruct (transfer_owner e params st st' Hcall id o Hown); [contradiction|assumption].
  - subst st'. contradiction.
  - apply update_operators_kept in Hcall. rewrite Hcall in Hchanged. contradiction.
  - destruct Hcall as (_ & _ & _ & ->). contradiction.
  - destruct Hcall as (_ & ->). contradiction.
  - destruct Hcall as (_ & ->). contradiction.
  - destruct Hcall as (_ & ->). contradiction.
  - apply mint_ok_minted in Hcall as (_ & _ & Hold & _).
    pose proof (proj1 (registry_invariant_lookup st) Hreach id) as [Hl _].
    assert (id < all_tokens st) as Hlt by (apply Hl; eauto).
    destruct (Hold id) as [Hsame _]; [lia|]. rewrite Hsame in Hchanged.
    contradiction.
  - destruct Hcall as (_ & _ & ->). contradiction.
  - destruct Hcall as (_ & _ & ->). contradiction.
  - subst st'. contradiction.
Qed.

(** X14.  There and back: the owner sends a token to [b], [b] sends it
    back, and the storage is what it was. *)
Theorem transfer_there_and_back (e1 e2 : env) (b : string) (id : N)
    (st : storage) :
  ledger st !! id = Some (sp_sender e1) ->
  is_Some (hashes st !! id) ->
  sp_sender e2 = b ->
  exists st1,
    transfer config e1
      [ {| Batch_transfer.from_ := sp_sender e1;
           Batch_transfer.txs :=
             [ {| Batch_transfer.to_ := b; Batch_transfer.token_id := id;
                  Batch_transfer.amount := 1 |} ] |} ] st = Ok st1
    /\ ledger st1 !! id = Some b
    /\ transfer config e2
         [ {| Batch_transfer.from_ := b;
              Batch_transfer.txs :=
                [ {| Batch_transfer.to_ := sp_sender e1; Batch_transfer.token_id := id;
                     Batch_transfer.amount := 1 |} ] |} ] st1 = Ok st.
Proof.
  intros Hown Hex <-.
  exists (set_ledger (<[id := sp_sender e2]> (ledger st)) st).
  unfold transfer. cbn [for_each Batch_transfer.from_ Batch_transfer.txs].
  rewrite transfer_tx_checked; [| left; reflexivity | exact Hex].
  cbn [Batch_transfer.amount Batch_transfer.token_id Batch_transfer.to_].
  cbn [N.leb N.eqb N.compare Pos.compare Pos.compare_cont Pos.eqb verify bind].
  rewrite (proj2 (get_item_ok _ _ _) Hown). cbn [bind].
  rewrite bool_decide_eq_true_2 by reflexivity. cbn [verify bind].
  conjs; [reflexivity | apply lookup_insert_eq |].
  rewrite transfer_tx_checked; [| left; reflexivity | exact Hex].
  cbn [Batch_transfer.amount Batch_transfer.token_id Batch_transfer.to_].
  cbn [N.leb N.eqb N.compare Pos.compare Pos.compare_cont Pos.eqb verify bind].
  cbn [ledger set_ledger].
  rewrite (proj2 (get_item_ok _ _ _) (lookup_insert_eq _ _ _)). cbn [bind].
  rewrite bool_decide_eq_true_2 by reflexivity. cbn [verify bind].
  rewrite insert_insert_eq, insert_id by exact Hown.
  destruct st; reflexivity.
Qed.

(** ** Operators *)

Lemma update_operators_other (e : env) (params : list operator_update)
    (st st' : storage) :
  update_operators config e params st = Ok st' ->
  forall k : Operator_set.key,
    fst k <> sp_sender e -> (k ∈ operators st' <-> k ∈ operators st).
Proof.
  unfold update_operators. destruct (support_operator config); [|discriminate].
  apply (for_each_rel
           (fun st st' => forall k : Operator_set.key,
                fst k <> sp_sender e -> (k ∈ operators st' <-> k ∈ operators st))).
  - intros st0 k _. tauto.
  - intros st1 st2 st3 H1 H2 k Hk. rewrite (H2 k Hk). apply H1, Hk.
  - intros [upd|upd] st0 st0' H k Hk; simpl in H; bind_inv H;
      apply bool_decide_eq_true_1 in Hv; injection H as <-;
      cbn [operators set_operators];
      unfold Operator_set.add, Operator_set.remove, Operator_set.make_key.
    + rewrite elem_of_union, elem_of_singleton. split; [|auto].
      intros [->|Hin]; [|exact Hin]. simpl in Hk. congruence.
    + rewrite elem_of_difference, elem_of_singleton. split; [tauto|].
      intros Hin. split; [exact Hin|]. intros ->. simpl in Hk. congruence.
Qed.

(** X13.  Nobody grants or revokes for somebody else: whatever the call, a
    triple whose owner is not the sender is in the operator set after the
    call exactly if it was before. *)
Theorem operators_change_only_for_sender (e : env) (ep : entry_point)
    (st : storage) (k : Operator_set.key) :
  fst k <> sp_sender e ->
  (k ∈ operators (run keccak pack config e ep st) <-> k ∈ operators st).
Proof.
  intros Hk. unfold run, commit.
  destruct (call keccak pack config e ep st) as [[ops st']|err] eqn:Hcall;
    simpl; [|tauto].
  apply call_ok_cases in Hcall. destruct ep.
  - apply transfer_kept in Hcall as [_ Hf]. rewrite Hf. tauto.
  - subst st'. tauto.
  - apply (update_operators_other e params st st' Hcall k Hk).
  - destruct Hcall as (_ & _ & _ & ->). tauto.
  - destruct Hcall as (_ & ->). tauto.
  - destruct Hcall as (_ & ->). tauto.
  - destruct Hcall as (_ & ->). tauto.
  - apply mint_ok_minted in Hcall as (_ & _ & _ & Hf). rewrite Hf. tauto.
  - destruct Hcall as (_ & _ & ->). tauto.
  - destruct Hcall as (_ & _ & ->). tauto.
  - subst st'. tauto.
Qed.

(** X19.  A grant works: once the owner of a token has added an operator
    for it, that operator can transfer the token out of the owner's hands,
    and the grant is still there afterwards. *)
Theorem operator_can_transfer (e_owner e_operator : env) (to_ : string) (id : N)
    (st : storage) :
  support_operator config = true ->
  ledger st !! id = Some (sp_sender e_owner) ->
  is_Some (hashes st !! id) ->
  let grant := Operator_param.make (sp_sender e_owner) (sp_sender e_operator) id in
  exists st1 st2,
    update_operators config e_owner [add_operator grant] st = Ok st1
    /\ transfer config e_operator
         [ {| Batch_transfer.from_ := sp_sender e_owner;
              Batch_transfer.txs :=
                [ {| Batch_transfer.to_ := to_; Batch_transfer.token_id := id;
                     Batch_transfer.amount := 1 |} ] |} ] st1 = Ok st2
    /\ ledger st2 !! id = Some to_
    /\ is_operator st2 grant = true.
Proof.
  intros Hs Hown Hex grant.
  pose proof (update_operators_add config e_owner grant st Hs eq_refl) as Hadd.
  match type of Hadd with _ = Ok ?s => set (st1 := s) in * end.
  exists st1, (set_ledger (<[id := to_]> (ledger st1)) st1).
  assert (Operator_set.make_key (sp_sender e_owner) (sp_sender e_operator) id
          ∈ operators st1) as Hin.
  { subst st1. cbn [operators set_operators]. unfold Operator_set.add.
    apply elem_of_union_l, elem_of_singleton. reflexivity. }
  conjs.
  - exact Hadd.
  - unfold transfer. cbn [for_each Batch_transfer.from_ Batch_transfer.txs].
    rewrite transfer_tx_checked; [| right; left; exact Hin | exact Hex].
    cbn [Batch_transfer.amount Batch_transfer.token_id Batch_transfer.to_].
    cbn [N.leb N.eqb N.compare Pos.compare Pos.compare_cont Pos.eqb verify bind].
    assert (ledger st1 !! id = Some (sp_sender e_owner)) as Hown1 by exact Hown.
    rewrite (proj2 (get_item_ok _ _ _) Hown1). cbn [bind].
    rewrite bool_decide_eq_true_2 by reflexivity. reflexivity.
  - apply lookup_insert_eq.
  - unfold is_operator, Operator_set.is_member.
    apply bool_decide_eq_true_2. exact Hin.
Qed.

(** X18.  [update_operators] succeeds exactly when operators are supported
    and every update of the list names the sender as owner (so also on the
    empty list); it fails with [FA2_OPERATORS_UNSUPPORTED] when they are not
    supported, whatever the list, and with [FA2_NOT_OWNER] otherwise; a
    successful call writes the operator set and nothing else. *)
Theorem update_operators_succeeds_iff (e : env) (params : list operator_update)
    (st : storage) :
  ((exists st', update_operators config e params st = Ok st')
   <-> support_operator config = true
       /\ Forall (fun update => update_owner update = sp_sender e) params)
  /\ (support_operator config = false ->
      update_operators config e params st
      = Failed (FAILWITH Error_message.operators_unsupported))
  /\ (support_operator config = true ->
      ~ Forall (fun update => update_owner update = sp_sender e) params ->
      update_operators config e params st
      = Failed (FAILWITH Error_message.not_owner))
  /\ (forall st', update_operators config e params st = Ok st' ->
        st' = set_operators (operators st') st).
Proof.
  assert (forall l s,
             (Forall (fun update => update_owner update = sp_sender e) l ->
              exists s', for_each (update_operator e) l s = Ok s')
             /\ (~ Forall (fun update => update_owner update = sp_sender e) l ->
                 for_each (update_operator e) l s
                 = Failed (FAILWITH Error_message.not_owner))) as Hloop.
  { induction l as [|u l IH]; intros s.
    - split; [eauto|]. intros Hn. exfalso. apply Hn. constructor.
    - destruct (decide (update_owner u = sp_sender e)) as [Hu|Hu].
      + assert (exists s1, update_operator e u s = Ok s1) as [s1 Hs1].
        { destruct u as [upd|upd]; simpl in *;
            rewrite bool_decide_eq_true_2 by exact Hu; eauto. }
        simpl. rewrite Hs1. cbn [bind]. split.
        * intros Hall. apply Forall_cons in Hall as [_ Hall].
          apply (IH s1), Hall.
        * intros Hn. apply (IH s1). intros Hall. apply Hn.
          constructor; assumption.
      + assert (update_operator e u s = Failed (FAILWITH Error_message.not_owner))
          as Hs1.
        { destruct u as [upd|upd]; simpl in *;
            rewrite bool_decide_eq_false_2 by exact Hu; reflexivity. }
        simpl. rewrite Hs1. split; [|reflexivity].
        intros Hall. apply Forall_cons in Hall as [Hu' _]. contradiction. }
  unfold update_operators. conjs.
  - destruct (support_operator config).
    + split.
      * intros [st' Hok]. split; [reflexivity|].
        destruct (decide (Forall (fun update => update_owner update = sp_sender e)
                            params))
          as [Hall|Hn]; [exact Hall|].
        rewrite (proj2 (Hloop params st) Hn) in Hok. discriminate.
      * intros [_ Hall]. apply (Hloop params st), Hall.
    + split; [intros [st' Hok]; discriminate | intros [Hs _]; discriminate].
  - intros ->. reflexivity.
  - intros -> Hn. apply (Hloop params st), Hn.
  - intros st'. apply (update_operators_kept config e params st st').
Qed.

(** X21.  Adding a triple to the operator set makes it a member, removing
    it makes it none, and neither touches the membership of any other
    triple. *)
Theorem operator_set_membership (set : gset Operator_set.key)
    (owner operator : string) (token_id : N)
    (owner' operator' : string) (token_id' : N) :
  Operator_set.is_member (Operator_set.add set owner operator token_id)
    owner' operator' token_id'
  = bool_decide ((owner', operator', token_id') = (owner, operator, token_id))
    || Operator_set.is_member set owner' operator' token_id'
  /\ Operator_set.is_member (Operator_set.remove set owner operator token_id)
       owner' operator' token_id'
     = negb (bool_decide ((owner', operator', token_id') = (owner, operator, token_id)))
       && Operator_set.is_member set owner' operator' token_id'.
Proof.
  unfold Operator_set.is_member, Operator_set.add, Operator_set.remove,
    Operator_set.make_key.
  split; apply eq_true_iff_eq.
  - rewrite orb_true_iff, !bool_decide_eq_true.
    rewrite elem_of_union, elem_of_singleton. split.
    + intros [Heq|Hin]; [left; congruence | right; exact Hin].
    + intros [Heq|Hin]; [left; congruence | right; exact Hin].
  - rewrite andb_true_iff, negb_true_iff, bool_decide_eq_false,
      !bool_decide_eq_true.
    rewrite elem_of_difference, elem_of_singleton. split.
    + intros [Hin Hne]. split; [congruence | exact Hin].
    + intros [Hne Hin]. split; [exact Hin | congruence].
Qed.

(** ** Balances and views *)

Lemma f_process_request_minted (st : storage) (r : Balance_of.request) :
  registry_invariant st ->
  (Balance_of.token_id r < all_tokens st ->
   f_process_request st r = Ok (response_for st r))
  /\ (all_tokens st <= Balance_of.token_id r ->
      f_process_request st r = Failed (FAILWITH Error_message.token_undefined)).
Proof.
  intros Hinv.
  pose proof (proj1 (registry_invariant_lookup st) Hinv (Balance_of.token_id r))
    as [Hl Hh].
  unfold f_process_request, response_for. split.
  - intros Hlt.
    rewrite verify_true by (apply contains_true, Hh, Hlt). cbn [bind].
    destruct (proj2 Hl Hlt) as [o Ho].
    rewrite (proj2 (get_item_ok _ _ _) Ho). cbn [bind]. rewrite Ho.
    destruct (decide (o = Balance_of.owner r)) as [->|Hne].
    + rewrite !bool_decide_eq_true_2 by reflexivity. reflexivity.
    + rewrite !bool_decide_eq_false_2 by congruence. reflexivity.
  - intros Hge. rewrite verify_false; [reflexivity|].
    apply not_true_is_false. rewrite contains_true, Hh. lia.
Qed.

(** X15.  In a reachable storage [balance_of] succeeds when every request
    is about a minted token: it emits one callback to the given address
    with one response per request, in the order of the requests, each with
    balance 1 if the request's owner owns the token and 0 if not (and so an
    empty list of responses for no requests), and the storage is as before.
    If some request is about an id that is not minted, the call fails with
    [FA2_TOKEN_UNDEFINED]. *)
Theorem balance_of_spec (metadata : gmap string (list Byte.byte))
    (admin : string) (st : storage) (requests : list Balance_of.request)
    (callback : string) (e : env) :
  reachable keccak pack config metadata admin st ->
  (Forall (fun r => Balance_of.token_id r < all_tokens st) requests ->
     balance_of requests callback st
     = Ok [Callback callback (response_for st <$> requests)]
     /\ run keccak pack config e (Balance_of_call requests callback) st = st)
  /\ (Exists (fun r => all_tokens st <= Balance_of.token_id r) requests ->
      balance_of requests callback st
      = Failed (FAILWITH Error_message.token_undefined)).
Proof.
  intros Hreach. apply reachable_invariant in Hreach.
  assert (forall l,
             (Forall (fun r => Balance_of.token_id r < all_tokens st) l ->
              map_result (f_process_request st) l = Ok (response_for st <$> l))
             /\ (Exists (fun r => all_tokens st <= Balance_of.token_id r) l ->
                 map_result (f_process_request st) l
                 = Failed (FAILWITH Error_message.token_undefined))) as Hmap.
  { induction l as [|r l [IHok IHfail]]; simpl.
    - split; [reflexivity|]. intros Hex. apply Exists_nil in Hex. contradiction.
    - destruct (f_process_request_minted st r Hreach) as [Hin Hout]. split.
      + intros Hall. apply Forall_cons in Hall as [Hr Hall].
        rewrite (Hin Hr). cbn [bind]. rewrite (IHok Hall). reflexivity.
      + intros Hex.
        destruct (decide (Balance_of.token_id r < all_tokens st)) as [Hr|Hr].
        * rewrite (Hin Hr). cbn [bind]. rewrite IHfail; [reflexivity|].
          apply Exists_cons in Hex as [Hex|Hex]; [lia | exact Hex].
        * rewrite Hout by lia. reflexivity. }
  unfold run, commit, call, keep_storage, balance_of. split.
  - intros Hall. rewrite (proj1 (Hmap requests) Hall). split; reflexivity.
  - intros Hex. rewrite (proj2 (Hmap requests) Hex). reflexivity.
Qed.

(** X16.  One owner per token: in a reachable storage every minted id has
    an owner, for whom [get_balance] answers 1, and it answers 0 for
    everybody else. *)
Theorem get_balance_single_owner (metadata : gmap string (list Byte.byte))
    (admin : string) (st : storage) (id : N) :
  reachable keccak pack config metadata admin st ->
  id < all_tokens st ->
  exists o,
    ledger st !! id = Some o
    /\ forall owner,
         get_balance st {| Balance_of.owner := owner; Balance_of.token_id := id |}
         = Ok (if bool_decide (owner = o) then 1 else 0).
Proof.
  intros Hreach Hlt. apply reachable_invariant in Hreach.
  pose proof (proj1 (registry_invariant_lookup st) Hreach id) as [Hl Hh].
  destruct (proj2 Hl Hlt) as [o Ho]. exists o. split; [exact Ho|].
  intros owner. unfold get_balance. cbn [Balance_of.token_id Balance_of.owner].
  rewrite verify_true by (apply contains_true, Hh, Hlt). cbn [bind].
  rewrite (proj2 (get_item_ok _ _ _) Ho). cbn [bind].
  destruct (decide (owner = o)) as [->|Hne].
  - rewrite !bool_decide_eq_true_2 by reflexivity. reflexivity.
  - rewrite !bool_decide_eq_false_2 by congruence. reflexivity.
Qed.

(** X17.  The views agree: in a reachable storage [does_token_exist] holds
    of an id exactly when the id is below [count_tokens], and [all_tokens]
    lists exactly those ids, each once, from 0 up. *)
Theorem views_agree (metadata : gmap string (list Byte.byte))
    (admin : string) (st : storage) (id : N) :
  reachable keccak pack config metadata admin st ->
  (does_token_exist st id = true <-> id < count_tokens st)
  /\ (id ∈ all_tokens_view st <-> id < count_tokens st)
  /\ NoDup (all_tokens_view st)
  /\ length (all_tokens_view st) = N.to_nat (count_tokens st)
  /\ (forall i : nat, (i < N.to_nat (count_tokens st))%nat ->
        all_tokens_view st !! i = Some (N.of_nat i)).
Proof.
  intros Hreach. apply reachable_invariant in Hreach.
  pose proof (proj1 (registry_invariant_lookup st) Hreach id) as [_ Hh].
  unfold does_token_exist, all_tokens_view, count_tokens, Token_id_set.cardinal.
  conjs.
  - rewrite contains_true. exact Hh.
  - rewrite elem_of_range. lia.
  - unfold range. apply NoDup_fmap_2; [intros x y; apply Nat2N.inj | apply NoDup_seq].
  - unfold range. rewrite length_fmap, length_seq. lia.
  - intros i Hi. unfold range. rewrite list_lookup_fmap.
    rewrite lookup_seq_lt by lia. simpl. reflexivity.
Qed.

End Further.

(** ** The consumer of the callback *)

Lemma receive_balances_fold (params : list Balance_of.response)
    (st : View_consumer.t) :
  View_consumer.last_sum
    (fold_left (fun st resp =>
                  View_consumer.set_last_sum
                    (View_consumer.last_sum st + Balance_of.balance resp) st)
               params st)
  = View_consumer.last_sum st + sum_balances params
  /\ View_consumer.operator_support
       (fold_left (fun st resp =>
                     View_consumer.set_last_sum
                       (View_consumer.last_sum st + Balance_of.balance resp) st)
                  params st)
     = View_consumer.operator_support st.
Proof.
  revert st. induction params as [|resp params IH]; intros st; simpl.
  - split; [lia | reflexivity].
  - destruct (IH (View_consumer.set_last_sum
                    (View_consumer.last_sum st + Balance_of.balance resp) st))
      as [-> ->].
    simpl. split; [lia | reflexivity].
Qed.

(** X20.  [receive_balances] leaves in [last_sum] the sum of the balances
    it is sent, whatever was there before; fed with what a successful
    [balance_of] emits, that is the number of requests whose owner owns the
    token asked about. *)
Theorem receive_balances_counts_owned (st : storage)
    (requests : list Balance_of.request) (callback : string)
    (responses : list Balance_of.response) (consumer : View_consumer.t) :
  View_consumer.last_sum (View_consumer.receive_balances responses consumer)
  = sum_balances responses
  /\ View_consumer.operator_support
       (View_consumer.receive_balances responses consumer)
     = View_consumer.operator_support consumer
  /\ (balance_of requests callback st = Ok [Callback callback responses] ->
      sum_balances responses
      = N.of_nat (length (filter (fun r => ledger st !! Balance_of.token_id r
                                           = Some (Balance_of.owner r)) requests))).
Proof.
  conjs.
  - unfold View_consumer.receive_balances.
    rewrite (proj1 (receive_balances_fold responses _)). reflexivity.
  - unfold View_consumer.receive_balances.
    rewrite (proj2 (receive_balances_fold responses _)). reflexivity.
  - unfold balance_of. intros H. bind_inv H. injection H as <-.
    revert a Ha. induction requests as [|r requests IH]; intros a Ha; simpl in Ha.
    + injection Ha as <-. reflexivity.
    + bind_inv Ha. injection Ha as <-.
      specialize (IH a1 Ha1). simpl. rewrite IH.
      unfold f_process_request in Ha0. bind_inv Ha0.
      apply get_item_ok in Ha. rewrite filter_cons.
      destruct (decide (a = Balance_of.owner r)) as [->|Hne].
      * rewrite bool_decide_eq_true_2 in Ha0 by reflexivity.
        injection Ha0 as <-. rewrite decide_True by exact Ha. simpl. lia.
      * rewrite bool_decide_eq_false_2 in Ha0 by exact Hne.
        injection Ha0 as <-. rewrite decide_False by congruence. simpl. lia.
Qed.

(** ** Configuration names *)

(** X22.  The name of a configuration tells its five options: two
    configurations with the same name agree on all of them. *)
Theorem FA2_config_name_inj (d r f o s d' r' f' o' s' : bool) :
  FA2_config_name d r f o s = FA2_config_name d' r' f' o' s' ->
  d = d' /\ r = r' /\ f = f' /\ o = o' /\ s = s'.
Proof.
  destruct d, r, f, o, s, d', r', f', o', s'; vm_compute; intros H;
    first [discriminate H | conjs; reflexivity].
Qed.

(** ** The further properties at work *)

Lemma two_minted_reachable :
  reachable test_keccak test_pack default_config origin_metadata "admin" two_minted.
Proof.
  exists [(call_by "alice" 1000000, Mint 1); (call_by "alice" 1000000, Mint 1)].
  reflexivity.
Defined.

Lemma one_minted_reachable :
  reachable test_keccak test_pack default_config origin_metadata "admin" one_minted.
Proof. exists [(call_by "alice" 1000000, Mint 1)]. reflexivity. Defined.

Lemma token_metadata_of_minted_witness :
  exists v,
    token_metadata two_minted 1 = Ok v
    /\ tm_token_info v !! EmptyString = Some (base_uri two_minted ++ decimal 1)%list.
Proof.
  destruct (token_metadata_of_minted test_keccak test_pack default_config
              origin_metadata "admin" two_minted 1)
    as (h & v & _ & Hv & _ & _ & Huri & _).
  - exact two_minted_reachable.
  - vm_compute. reflexivity.
  - exists v. split; [exact Hv | exact Huri].
Defined.

Lemma supply_never_exceeds_max_editions_witness :
  all_tokens two_minted <= max_editions two_minted.
Proof.
  apply (supply_never_exceeds_max_editions test_keccak test_pack default_config
           origin_metadata "admin" two_minted).
  exact two_minted_reachable.
Defined.


Lemma non_admin_cannot_govern_witness :
  governance (run test_keccak test_pack default_config (call_by "bob" 0)
                (Set_pause true) origin)
  = governance origin.
Proof.
  apply (non_admin_cannot_govern test_keccak test_pack default_config
           (call_by "bob" 0) (Set_pause true) origin).
  vm_compute. discriminate.
Defined.

Lemma administrator_handover_witness :
  exists st',
    set_administrator (call_by "admin" 0) "carol" origin = Ok st'
    /\ administrator st' = "carol"
    /\ lock (call_by "admin" 0) st' = Failed (FAILWITH Error_message.not_admin).
Proof.
  destruct (administrator_handover (call_by "admin" 0) (call_by "admin" 0)
              (call_by "carol" 0) "carol" origin)
    as (st' & Hset & Hadmin & _ & _ & Hlock & _).
  - reflexivity.
  - reflexivity.
  - reflexivity.
  - vm_compute. discriminate.
  - exists st'. conjs; assumption.
Defined.

Lemma locked_freezes_script_and_base_uri_witness :
  script (test_run [(call_by "admin" 0, Set_script "draw()")]
            (set_locked true origin))
  = script (set_locked true origin).
Proof.
  apply (locked_freezes_script_and_base_uri test_keccak test_pack default_config
           [(call_by "admin" 0, Set_script "draw()")] (set_locked true origin)).
  reflexivity.
Defined.

Lemma sale_started_freezes_mint_parameters_witness :
  price (test_run [(call_by "admin" 0, Set_mint_parameters 5 10)] two_minted)
  = price two_minted.
Proof.
  apply (sale_started_freezes_mint_parameters test_keccak test_pack default_config
           [(call_by "admin" 0, Set_mint_parameters 5 10)] two_minted).
  vm_compute. discriminate.
Defined.

Lemma owner_changes_only_when_authorized_witness :
  ledger (run test_keccak test_pack default_config (call_by "alice" 0)
            (Transfer alice_gives_token_0_to_bob) one_minted) !! 0
  = Some "bob"
  /\ authorized default_config (call_by "alice" 0) one_minted "alice" 0.
Proof.
  split; [vm_compute; reflexivity|].
  apply (owner_changes_only_when_authorized test_keccak test_pack default_config
           origin_metadata "admin" one_minted (call_by "alice" 0)
           (Transfer alice_gives_token_0_to_bob) 0 "alice").
  - exact one_minted_reachable.
  - vm_compute. reflexivity.
  - vm_compute. discriminate.
Defined.

Lemma operators_change_only_for_sender_witness :
  Operator_set.make_key "alice" "bob" 0
    ∈ operators (run test_keccak test_pack default_config (call_by "bob" 0)
                   (Update_operators [remove_operator bob_is_operator]) granted)
  <-> Operator_set.make_key "alice" "bob" 0 ∈ operators granted.
Proof.
  apply (operators_change_only_for_sender test_keccak test_pack default_config
           (call_by "bob" 0) (Update_operators [remove_operator bob_is_operator])
           granted (Operator_set.make_key "alice" "bob" 0)).
  vm_compute. discriminate.
Defined.

Lemma transfer_there_and_back_witness :
  exists st1,
    transfer default_config (call_by "alice" 0) alice_gives_token_0_to_bob one_minted
    = Ok st1
    /\ ledger st1 !! 0 = Some "bob".
Proof.
  destruct (transfer_there_and_back default_config (call_by "alice" 0)
              (call_by "bob" 0) "bob" 0 one_minted) as (st1 & Hgo & Hbob & _).
  - vm_compute. reflexivity.
  - vm_compute. eexists. reflexivity.
  - reflexivity.
  - exists st1. split; [exact Hgo | exact Hbob].
Defined.

Lemma balance_of_spec_witness :
  balance_of
    [ {| Balance_of.owner := "alice"; Balance_of.token_id := 0 |};
      {| Balance_of.owner := "bob"; Balance_of.token_id := 1 |} ]
    "KT1_consumer" two_minted
  = Ok [ Callback "KT1_consumer"
           (response_for two_minted
              <$> [ {| Balance_of.owner := "alice"; Balance_of.token_id := 0 |};
                    {| Balance_of.owner := "bob"; Balance_of.token_id := 1 |} ]) ].
Proof.
  apply (balance_of_spec test_keccak test_pack default_config origin_metadata
           "admin" two_minted
           [ {| Balance_of.owner := "alice"; Balance_of.token_id := 0 |};
             {| Balance_of.owner := "bob"; Balance_of.token_id := 1 |} ]
           "KT1_consumer" (call_by "carol" 0)).
  - exact two_minted_reachable.
  - repeat constructor.
Defined.

Lemma get_balance_single_owner_witness :
  exists o,
    ledger two_minted !! 1 = Some o
    /\ get_balance two_minted {| Balance_of.owner := "bob"; Balance_of.token_id := 1 |}
       = Ok (if bool_decide ("bob" = o) then 1 else 0).
Proof.
  destruct (get_balance_single_owner test_keccak test_pack default_config
              origin_metadata "admin" two_minted 1) as (o & Ho & Hbal).
  - exact two_minted_reachable.
  - vm_compute. reflexivity.
  - exists o. split; [exact Ho | apply Hbal].
Defined.

Lemma views_agree_witness :
  (does_token_exist two_minted 1 = true <-> 1 < count_tokens two_minted)
  /\ (1 ∈ all_tokens_view two_minted <-> 1 < count_tokens two_minted).
Proof.
  destruct (views_agree test_keccak test_pack default_config origin_metadata
              "admin" two_minted 1) as (Hexists & Hin & _).
  - exact two_minted_reachable.
  - split; [exact Hexists | exact Hin].
Defined.

Lemma operator_can_transfer_witness :
  exists st1 st2,
    update_operators default_config (call_by "alice" 0)
      [add_operator (Operator_param.make "alice" "bob" 0)] one_minted = Ok st1
    /\ transfer default_config (call_by "bob" 0)
         [ {| Batch_transfer.from_ := "alice";
              Batch_transfer.txs :=
                [ {| Batch_transfer.to_ := "carol";
                     Batch_transfer.token_id := 0;
                     Batch_transfer.amount := 1 |} ] |} ] st1 = Ok st2
    /\ ledger st2 !! 0 = Some "carol".
Proof.
  destruct (operator_can_transfer default_config (call_by "alice" 0)
              (call_by "bob" 0) "carol" 0 one_minted)
    as (st1 & st2 & Hadd & Htr & Hown & _).
  - reflexivity.
  - vm_compute. reflexivity.
  - vm_compute. eexists. reflexivity.
  - exists st1, st2. conjs; assumption.
Defined.

Lemma FA2_config_name_inj_witness :
  FA2_config_name false true true false true = "FA2-no_ops-self_transfer"
  /\ (false = false /\ true = true /\ true = true /\ false = false /\ true = true).
Proof.
  split; [reflexivity|].
  apply (FA2_config_name_inj false true true false true false true true false true).
  reflexivity.
Defined.
